(** * A verified model of the file organizer (organizer.py, config.py)

    The development embeds the classification and safe-move pipeline of
    [organizer.py]: extension normalisation, category lookup, collision-free
    target naming, the move/log transaction and the folder scan, together
    with the parts of [pathlib], [shutil], [os] and [logging] they call.

    Conventions of the model.
    - Python [str] is [string]; [str.lower] acts on the ASCII letters.
    - A [pathlib.Path] is the list of its components below the root (paths
      are absolute; [main] resolves the source before using it).  The
      [name], [stem] and [suffix] attributes follow CPython 3.8 to 3.13.
    - The file system is a finite map from paths to nodes.
    - Exceptions are values; a computation is a function from the world to
      an outcome and the world it leaves behind.
    - The log is kept apart from the file system: the world records the
      logging calls made and the records the file handler wrote.
    - [main] takes the source path that [parse_args] and
      [Path(...).expanduser().resolve()] deliver. *)

From Stdlib Require Import ZArith Ascii String.
From stdpp Require Import base gmap strings pretty list fin_maps.

(** ** Python strings *)

Module Str.

Definition len (s : string) : Z := Z.of_nat (String.length s).

(** [s.rfind(c)]: highest index of [c] in [s], or [-1]. *)
Fixpoint rfind (c : ascii) (s : string) : Z :=
  match s with
  | EmptyString => (-1)%Z
  | String a r =>
      let i := rfind c r in
      if (0 <=? i)%Z then (i + 1)%Z
      else if decide (a = c) then 0%Z else (-1)%Z
  end.

(** [s[n:]] and [s[:n]] for a natural index [n]. *)
Fixpoint drop (n : nat) (s : string) : string :=
  match n, s with
  | O, _ => s
  | S _, EmptyString => EmptyString
  | S k, String _ r => drop k r
  end.

Fixpoint take (n : nat) (s : string) : string :=
  match n, s with
  | O, _ => EmptyString
  | S _, EmptyString => EmptyString
  | S k, String a r => String a (take k r)
  end.

Definition slice_from (i : Z) (s : string) : string := drop (Z.to_nat i) s.
Definition slice_to (i : Z) (s : string) : string := take (Z.to_nat i) s.

(** [str.lower] on one character: the letters A..Z move to a..z. *)
Definition lower_char (c : ascii) : ascii :=
  let n := nat_of_ascii c in
  if (65 <=? n) && (n <=? 90) then ascii_of_nat (n + 32) else c.

Fixpoint lower (s : string) : string :=
  match s with
  | EmptyString => EmptyString
  | String a r => String (lower_char a) (lower r)
  end.

(** [s.lstrip(c)]: drop the leading run of [c]. *)
Fixpoint lstrip (c : ascii) (s : string) : string :=
  match s with
  | EmptyString => EmptyString
  | String a r => if decide (a = c) then lstrip c r else s
  end.

(** [c in s] for a single character. *)
Fixpoint contains (c : ascii) (s : string) : bool :=
  match s with
  | EmptyString => false
  | String a r => bool_decide (a = c) || contains c r
  end.

(** [sep.join(parts)] *)
Fixpoint join (sep : string) (parts : list string) : string :=
  match parts with
  | [] => ""
  | [x] => x
  | x :: rest => x +:+ sep +:+ join sep rest
  end.

End Str.

(** ** pathlib (POSIX flavour) *)

Abbreviation Path := (list string).

Module pathlib.

(** [s.split("/")]; the result is never empty. *)
Fixpoint split_sep (s : string) : list string :=
  match s with
  | EmptyString => [""]
  | String a r =>
      if decide (a = "/"%char) then "" :: split_sep r
      else match split_sep r with
           | h :: t => String a h :: t
           | [] => [String a ""]
           end
  end.

(** The parser keeps the components that are neither empty nor ["."]. *)
Definition keep (x : string) : Prop := x ≠ "" ∧ x ≠ ".".

Global Instance keep_dec (x : string) : Decision (keep x) :=
  ltac:(unfold keep; apply _).

Definition parse_parts (s : string) : list string :=
  filter keep (split_sep s).

Definition is_absolute (s : string) : bool :=
  match s with
  | String "/" _ => true
  | _ => false
  end.

(** [Path(s)] for an absolute or root-relative string. *)
Definition of_str (s : string) : Path := parse_parts s.

(** [p / s]: an absolute right operand replaces the left one. *)
Definition joinpath (p : Path) (s : string) : Path :=
  if is_absolute s then parse_parts s else p ++ parse_parts s.

(** [p.name]: the final component, [""] at the root. *)
Definition name (p : Path) : string := default "" (last p).

(** [p.parent] *)
Definition parent (p : Path) : Path := removelast p.

(** Suffix and stem of a final component (CPython 3.8 to 3.13):
    [i = name.rfind('.')]; the suffix is [name[i:]] when
    [0 < i < len(name) - 1] and empty otherwise. *)
Definition suffix_of_name (n : string) : string :=
  let i := Str.rfind "." n in
  if ((0 <? i) && (i <? Str.len n - 1))%Z then Str.slice_from i n else "".

Definition stem_of_name (n : string) : string :=
  let i := Str.rfind "." n in
  if ((0 <? i) && (i <? Str.len n - 1))%Z then Str.slice_to i n else n.

Definition suffix (p : Path) : string := suffix_of_name (name p).
Definition stem (p : Path) : string := stem_of_name (name p).

(** [str(p)] *)
Definition to_str (p : Path) : string := "/" +:+ Str.join "/" p.

End pathlib.

(** ** config.py *)

(** A category map is a [dict] from category names to lists of extensions;
    its iteration order is the order of the association list. *)
Definition CategoryMap := list (string * list string).

Definition CATEGORY_MAP : CategoryMap :=
  [ ("Images", ["jpg"; "jpeg"; "png"; "gif"; "bmp"; "tiff"; "webp"; "svg"]);
    ("Documents", ["pdf"; "doc"; "docx"; "txt"; "rtf"; "odt"; "xls"; "xlsx";
                   "ppt"; "pptx"; "md"; "csv"]);
    ("Videos", ["mp4"; "mkv"; "mov"; "avi"; "wmv"; "flv"; "webm"]);
    ("Audio", ["mp3"; "wav"; "aac"; "flac"; "ogg"; "m4a"]);
    ("Archives", ["zip"; "rar"; "7z"; "tar"; "gz"; "bz2"; "xz"]) ].

(** ** organizer.py: the pure functions *)

Definition LOG_FILENAME : string := "log.txt".

(** [Path(name).suffix.lower().lstrip(".")] *)
Definition normalize_extension (name : string) : string :=
  Str.lstrip "." (Str.lower (pathlib.suffix (pathlib.of_str name))).

(** The [for category, exts in mapping.items()] loop of [get_category]. *)
Fixpoint get_category_loop (ext : string) (items : CategoryMap) : string :=
  match items with
  | [] => "Others"
  | (category, exts) :: rest =>
      if bool_decide (ext ∈ exts) then category
      else get_category_loop ext rest
  end.

Definition get_category (ext : string) (mapping : CategoryMap) : string :=
  if decide (ext = "") then "Others" else get_category_loop ext mapping.


(** ** Exceptions and outcomes *)

(** The exception classes the modelled calls raise; all of them derive from
    [Exception], so an [except Exception] clause catches each one. *)
Inductive exn : Type :=
| FileNotFoundError (msg : string)
| FileExistsError (msg : string)
| NotADirectoryError (msg : string)
| IsADirectoryError (msg : string)
| PermissionError (msg : string)
| ShutilError (msg : string)
| OSError (msg : string).

(** [str(exc)] *)
Definition exn_str (e : exn) : string :=
  match e with
  | FileNotFoundError m | FileExistsError m | NotADirectoryError m
  | IsADirectoryError m | PermissionError m | ShutilError m | OSError m => m
  end.

Inductive result (A : Type) : Type :=
| Ok (a : A)
| Raise (e : exn).
Arguments Ok {A} a.
Arguments Raise {A} e.

(** ** The file system *)

(** A node is a regular file with its content or a directory; the flag of a
    directory tells whether the process may list it (its read permission). *)
Inductive node : Type :=
| File (content : string)
| Dir (listable : bool).

Abbreviation FS := (gmap Path node).

Module os.

(** The root always exists; every other path is looked up in the map. *)
Definition lookup_node (fs : FS) (p : Path) : option node :=
  match p with
  | [] => Some (Dir true)
  | _ => fs !! p
  end.

(** [Path.exists()], [Path.is_dir()], [Path.is_file()] *)
Definition path_exists (fs : FS) (p : Path) : bool :=
  match lookup_node fs p with Some _ => true | None => false end.

Definition is_dir (fs : FS) (p : Path) : bool :=
  match lookup_node fs p with Some (Dir _) => true | _ => false end.

Definition is_file (fs : FS) (p : Path) : bool :=
  match lookup_node fs p with Some (File _) => true | _ => false end.

(** [Path.mkdir(parents=True, exist_ok=True)]: walk from the root, create
    each missing directory, fail on a component that is a regular file. *)
Fixpoint mkdir_from (above : Path) (below : list string) (fs : FS)
  : result FS :=
  match below with
  | [] => Ok fs
  | x :: rest =>
      let q := above ++ [x] in
      match fs !! q with
      | Some (Dir _) => mkdir_from q rest fs
      | Some (File _) =>
          Raise (match rest with
                 | [] => FileExistsError
                           ("[Errno 17] File exists: " +:+ pathlib.to_str q)
                 | _ => NotADirectoryError
                          ("[Errno 20] Not a directory: " +:+ pathlib.to_str q)
                 end)
      | None => mkdir_from q rest (<[q := Dir true]> fs)
      end
  end.

Definition mkdir_parents (p : Path) (fs : FS) : result FS :=
  mkdir_from [] p fs.

(** Moving a directory: every entry below [src] is re-rooted at [dst]. *)
Definition rename_tree (src dst : Path) (fs : FS) : FS :=
  filter (λ kv, ¬ src `prefix_of` kv.1) fs
  ∪ kmap (λ k, dst ++ drop (length src) k)
         (filter (λ kv, src `prefix_of` kv.1) fs).

(** [os.rename(src, dst)] on one device.  A regular file renamed onto an
    existing regular file replaces it.  A directory renamed onto another
    existing directory is refused; the model does not single out the empty
    directory, which POSIX lets the call replace. *)
Definition rename (src dst : Path) (fs : FS) : result FS :=
  match src, fs !! src with
  | [], _ => Raise (OSError "[Errno 16] Device or resource busy: /")
  | _, None =>
      Raise (FileNotFoundError
               ("[Errno 2] No such file or directory: " +:+ pathlib.to_str src))
  | _, Some n =>
      if negb (is_dir fs (pathlib.parent dst)) then
        Raise (FileNotFoundError
                 ("[Errno 2] No such file or directory: " +:+ pathlib.to_str dst))
      else
        match n, lookup_node fs dst with
        | File _, Some (Dir _) =>
            Raise (IsADirectoryError
                     ("[Errno 21] Is a directory: " +:+ pathlib.to_str dst))
        | File c, _ => Ok (<[dst := File c]> (delete src fs))
        | Dir _, Some (File _) =>
            Raise (NotADirectoryError
                     ("[Errno 20] Not a directory: " +:+ pathlib.to_str dst))
        | Dir _, Some (Dir _) =>
            if decide (src = dst) then Ok fs
            else Raise (OSError
                          ("[Errno 39] Directory not empty: " +:+ pathlib.to_str dst))
        | Dir _, None =>
            if decide (src `prefix_of` dst) then
              Raise (OSError
                       ("[Errno 22] Invalid argument: " +:+ pathlib.to_str src))
            else Ok (rename_tree src dst fs)
        end
  end.

(** Opening a file for appending, as [logging.FileHandler] does when it is
    constructed: the parent must be a directory; a missing file is created. *)
Definition open_append (p : Path) (fs : FS) : result FS :=
  if negb (is_dir fs (pathlib.parent p)) then
    Raise (FileNotFoundError
             ("[Errno 2] No such file or directory: " +:+ pathlib.to_str p))
  else
    match lookup_node fs p with
    | Some (Dir _) =>
        Raise (IsADirectoryError
                 ("[Errno 21] Is a directory: " +:+ pathlib.to_str p))
    | Some (File _) => Ok fs
    | None => Ok (<[p := File ""]> fs)
    end.

End os.

Module shutil.

(** [shutil.move(src, dst)].  When [os.rename] fails the library falls back
    to copying; on a single device the copy meets the same obstacle, so the
    fallback re-raises, except that a directory moved into itself is
    reported as [shutil.Error]. *)
Definition move (src dst : Path) (fs : FS) : result FS :=
  let try_rename (real_dst : Path) :=
    match os.rename src real_dst fs with
    | Ok fs' => Ok fs'
    | Raise e =>
        if os.is_dir fs src && bool_decide (src `prefix_of` dst) then
          Raise (ShutilError
                   ("Cannot move a directory " +:+ pathlib.to_str src
                    +:+ " into itself " +:+ pathlib.to_str dst))
        else Raise e
    end in
  if os.is_dir fs dst then
    if decide (src = dst) then os.rename src dst fs
    else
      let real_dst := dst ++ [pathlib.name src] in
      if os.path_exists fs real_dst then
        Raise (ShutilError
                 ("Destination path " +:+ pathlib.to_str real_dst
                  +:+ " already exists"))
      else try_rename real_dst
  else try_rename dst.

End shutil.

(** ** logging *)

Module logging.

Definition DEBUG : Z := 10.
Definition INFO : Z := 20.
Definition WARNING : Z := 30.
Definition ERROR : Z := 40.
Definition CRITICAL : Z := 50.
Definition FATAL : Z := CRITICAL.
Definition NOTSET : Z := 0.

(** A record as the formatter prints it, without the time stamp:
    [levelname | message]. *)
Record LogRecord : Type := mkRecord { levelno : Z; message : string }.

(** The state of the logger named ["file_organizer"]: its level and the
    log files of its handlers. *)
Record Logger : Type := mkLogger { level : Z; handlers : list Path }.

(** [Logger.getEffectiveLevel]: an unset level defers to the root logger,
    whose level is [WARNING]. *)
Definition getEffectiveLevel (l : Logger) : Z :=
  if decide (level l = NOTSET) then WARNING else level l.

Definition isEnabledFor (l : Logger) (lvl : Z) : bool :=
  bool_decide (getEffectiveLevel l ≤ lvl)%Z.

(** A record reaches the log file when the logger is enabled for its level
    and has a handler. *)
Definition writes (l : Logger) (lvl : Z) : bool :=
  isEnabledFor l lvl && negb (bool_decide (handlers l = [])).

End logging.

Export logging (LogRecord, Logger).

(** ** The world and the computations on it *)

(** [emitted] lists every logging call the program made, in order;
    [log_file] lists the records the file handler wrote. *)
Record World : Type := mkWorld {
  fs : FS;
  logger : Logger;
  emitted : list LogRecord;
  log_file : list LogRecord
}.

Definition set_fs (w : World) (fs' : FS) : World :=
  mkWorld fs' (logger w) (emitted w) (log_file w).

Definition set_logger (w : World) (l : Logger) : World :=
  mkWorld (fs w) l (emitted w) (log_file w).

(** A computation either returns or raises, and leaves a world behind in
    both cases: an exception does not undo earlier effects. *)
Definition M (A : Type) : Type := World → result A * World.

Definition ret {A} (a : A) : M A := λ w, (Ok a, w).

Definition raise {A} (e : exn) : M A := λ w, (Raise e, w).

Definition bind {A B} (c : M A) (k : A → M B) : M B :=
  λ w, match c w with
       | (Ok a, w') => k a w'
       | (Raise e, w') => (Raise e, w')
       end.

(** [try: body except Exception as exc: handler] *)
Definition try_except {A} (body : M A) (handler : exn → M A) : M A :=
  λ w, match body w with
       | (Ok a, w') => (Ok a, w')
       | (Raise e, w') => handler e w'
       end.

Global Instance M_ret : MRet M := @ret.
Global Instance M_bind : MBind M := λ A B k c, bind c k.

(** A file-system call: the map changes only when the call succeeds. *)
Definition fs_call (f : FS → result FS) : M unit :=
  λ w, match f (fs w) with
       | Ok fs' => (Ok tt, set_fs w fs')
       | Raise e => (Raise e, w)
       end.

(** [for x in xs: body(x)] *)
Fixpoint for_each {A} (xs : list A) (body : A → M unit) : M unit :=
  match xs with
  | [] => ret tt
  | x :: rest => body x ;; for_each rest body
  end.

(** [logger.log(lvl, msg)] *)
Definition logger_log (lvl : Z) (msg : string) : M unit :=
  λ w, let r := logging.mkRecord lvl msg in
       (Ok tt,
        mkWorld (fs w) (logger w) (emitted w ++ [r])
                (if logging.writes (logger w) lvl
                 then log_file w ++ [r] else log_file w)).

Definition logger_debug : string → M unit := logger_log logging.DEBUG.
Definition logger_info : string → M unit := logger_log logging.INFO.
Definition logger_error : string → M unit := logger_log logging.ERROR.
(** [logger.exception] logs at [ERROR] and appends the traceback, which the
    model leaves out. *)
Definition logger_exception : string → M unit := logger_log logging.ERROR.

(** ** organizer.py: the effectful functions *)

(** [setup_logger]: set the level to [INFO]; add a file handler unless the
    logger already has one.  Constructing the handler opens the log file. *)
Definition setup_logger (log_path : Path) : M unit :=
  λ w,
    let w1 := set_logger w (logging.mkLogger logging.INFO
                              (logging.handlers (logger w))) in
    match logging.handlers (logger w1) with
    | [] =>
        match os.open_append log_path (fs w1) with
        | Ok fs' =>
            (Ok tt, set_logger (set_fs w1 fs')
                      (logging.mkLogger logging.INFO [log_path]))
        | Raise e => (Raise e, w1)
        end
    | _ :: _ => (Ok tt, w1)
    end.

(** [ensure_dir] *)
Definition ensure_dir (path : Path) : M unit :=
  fs_call (os.mkdir_parents path).

(** The candidate probed in round [counter] of [make_safe_target]:
    [target_dir / f"{name} ({counter}){suffix}"]. *)
Definition candidate (target_dir : Path) (name suffix : string)
  (counter : nat) : Path :=
  pathlib.joinpath target_dir
    (name +:+ " (" +:+ pretty counter +:+ ")" +:+ suffix).

(** The [while True] loop of [make_safe_target], run for at most [fuel]
    rounds; [None] means the loop is still running. *)
Fixpoint make_safe_target_loop (fuel : nat) (fs : FS) (target_dir : Path)
  (name suffix : string) (counter : nat) : option Path :=
  match fuel with
  | O => None
  | S fuel' =>
      let new_target := candidate target_dir name suffix counter in
      if negb (os.path_exists fs new_target) then Some new_target
      else make_safe_target_loop fuel' fs target_dir name suffix (S counter)
  end.

Definition make_safe_target_fuel (fuel : nat) (fs : FS) (target_dir : Path)
  (filename : string) : option Path :=
  let target := pathlib.joinpath target_dir filename in
  if negb (os.path_exists fs target) then Some target
  else
    let name := pathlib.stem target in
    let suffix := pathlib.suffix target in
    make_safe_target_loop fuel fs target_dir name suffix 1.

(** [make_safe_target]: the loop is given one round more than the file
    system has entries, which [make_safe_target_fuel_enough] below shows to
    be more than it ever uses. *)
Definition make_safe_target (fs : FS) (target_dir : Path) (filename : string)
  : Path :=
  default (pathlib.joinpath target_dir filename)
    (make_safe_target_fuel (S (size fs)) fs target_dir filename).

(** The [try] block of [safe_move]. *)
Definition safe_move_body (src dest_dir : Path) : M (option Path) :=
  ensure_dir dest_dir;;
  target ← ((λ w, (Ok (make_safe_target (fs w) dest_dir (pathlib.name src)), w))
            : M Path);
  fs_call (shutil.move src target);;
  logger_info ("Moved: " +:+ pathlib.to_str src +:+ " -> "
               +:+ pathlib.to_str target);;
  ret (Some target).

(** [safe_move] *)
Definition safe_move (src dest_dir : Path) : M (option Path) :=
  try_except (safe_move_body src dest_dir)
    (λ exc,
       logger_error ("Failed to move " +:+ pathlib.to_str src +:+ " -> "
                     +:+ pathlib.to_str dest_dir +:+ ": " +:+ exn_str exc);;
       ret None).

(** An [os.DirEntry]: its name, its path, and what [is_file()] answers;
    the call can itself raise [OSError]. *)
Record DirEntry : Type := mkEntry {
  entry_name : string;
  entry_path : Path;
  entry_is_file : result bool
}.

(** [os.scandir(source)]: the children of [source], taken as a snapshot
    when the scan starts, in the order the map enumerates them.  Listing
    needs the read permission of the directory. *)
Definition is_child (source : Path) (kv : Path * node) : Prop :=
  kv.1 ≠ [] ∧ pathlib.parent kv.1 = source.

Global Instance is_child_dec (source : Path) (kv : Path * node) :
  Decision (is_child source kv) :=
  ltac:(unfold is_child; apply _).

Definition entry_of (kv : Path * node) : DirEntry :=
  mkEntry (pathlib.name kv.1) kv.1
    (Ok (match kv.2 with File _ => true | Dir _ => false end)).

Definition scandir (source : Path) : M (list DirEntry) :=
  λ w, match os.lookup_node (fs w) source with
       | Some (Dir true) =>
           (Ok (entry_of <$> filter (is_child source) (map_to_list (fs w))), w)
       | Some (Dir false) =>
           (Raise (PermissionError
                     ("[Errno 13] Permission denied: " +:+ pathlib.to_str source)), w)
       | Some (File _) =>
           (Raise (NotADirectoryError
                     ("[Errno 20] Not a directory: " +:+ pathlib.to_str source)), w)
       | None =>
           (Raise (FileNotFoundError
                     ("[Errno 2] No such file or directory: "
                      +:+ pathlib.to_str source)), w)
       end.

(** The body of the [for entry in it] loop, with its per-entry guard. *)
Definition process_entry (source : Path) (mapping : CategoryMap)
  (entry : DirEntry) : M unit :=
  try_except
    (is_file ← ((λ w, (entry_is_file entry, w)) : M bool);
     if is_file : bool then
       let ext := normalize_extension (entry_name entry) in
       let category := get_category ext mapping in
       let dest_dir := pathlib.joinpath source category in
       safe_move (entry_path entry) dest_dir;;
       ret tt
     else
       logger_debug ("Skipped directory: " +:+ pathlib.to_str (entry_path entry)))
    (λ exc,
       logger_error ("Error processing " +:+ pathlib.to_str (entry_path entry)
                     +:+ ": " +:+ exn_str exc)).

(** [organize_folder] *)
Definition organize_folder (source : Path) (mapping : CategoryMap) : M unit :=
  λ w,
    if negb (os.path_exists (fs w) source) || negb (os.is_dir (fs w) source)
    then
      (logger_error ("Source folder does not exist or is not a directory: "
                     +:+ pathlib.to_str source);;
       raise (FileNotFoundError
                ("Source folder not found: " +:+ pathlib.to_str source))) w
    else
      (entries ← scandir source;
       for_each entries (process_entry source mapping)) w.

(** [main], given the resolved source path. *)
Definition main (source : Path) : M Z :=
  let log_path := pathlib.joinpath source LOG_FILENAME in
  setup_logger log_path;;
  logger_info ("Starting organization for: " +:+ pathlib.to_str source);;
  try_except
    (organize_folder source CATEGORY_MAP;;
     logger_info "Organization complete";;
     ret 0%Z)
    (λ exc,
       logger_exception ("Unhandled error: " +:+ exn_str exc);;
       ret 2%Z).

(** [raise SystemExit(main())]: the exit status is what [main] returns; an
    exception that leaves [main] ends the interpreter with status 1. *)
Definition exit_status (r : result Z) : Z :=
  match r with
  | Ok code => code
  | Raise _ => 1%Z
  end.

Definition run (source : Path) (w : World) : Z * World :=
  let (r, w') := main source w in (exit_status r, w').

(** ** Reference definitions that follow the wording of the specification *)

(** Section 4.1 in its own words: the text after the last ["."] of the base
    name, lowercased; empty when the base name has no ["."] or when its only
    ["."] is the leading one of a hidden file. *)
Definition extension_spec (filename : string) : string :=
  let base := pathlib.name (pathlib.of_str filename) in
  let i := Str.rfind "." base in
  if decide (i = -1)%Z then ""
  else if decide (i = 0)%Z then ""
  else Str.lower (Str.slice_from (i + 1) base).

(** ** Abbreviations used in the statements *)

(** The world after one logging call. *)
Definition logged (lvl : Z) (msg : string) (w : World) : World :=
  (logger_log lvl msg w).2.

(** The messages the program logs. *)
Definition moved_msg (src target : Path) : string :=
  "Moved: " +:+ pathlib.to_str src +:+ " -> " +:+ pathlib.to_str target.

Definition failed_msg (src dest_dir : Path) (exc : exn) : string :=
  "Failed to move " +:+ pathlib.to_str src +:+ " -> "
  +:+ pathlib.to_str dest_dir +:+ ": " +:+ exn_str exc.

Definition source_error_msg (source : Path) : string :=
  "Source folder does not exist or is not a directory: "
  +:+ pathlib.to_str source.

Definition entry_error_msg (entry : DirEntry) (exc : exn) : string :=
  "Error processing " +:+ pathlib.to_str (entry_path entry) +:+ ": "
  +:+ exn_str exc.

Definition skipped_msg (entry : DirEntry) : string :=
  "Skipped directory: " +:+ pathlib.to_str (entry_path entry).

Definition start_msg (source : Path) : string :=
  "Starting organization for: " +:+ pathlib.to_str source.

Definition unhandled_msg (exc : exn) : string :=
  "Unhandled error: " +:+ exn_str exc.

(** The destination directory [organize_folder] computes for an entry. *)
Definition dest_dir_of (source : Path) (mapping : CategoryMap)
  (entry : DirEntry) : Path :=
  pathlib.joinpath source
    (get_category (normalize_extension (entry_name entry)) mapping).

(** The text a round of [make_safe_target] puts between stem and suffix. *)
Definition counter_tag (n : nat) : string := " (" +:+ pretty n +:+ ")".

(** [log_extends w w']: the logger is the same in both worlds and the log
    file of [w'] is that of [w] followed by records the logger of [w] is
    enabled for. *)
Definition log_extends (w w' : World) : Prop :=
  logger w' = logger w
  ∧ ∃ new, log_file w' = log_file w ++ new
           ∧ Forall (λ r, (logging.getEffectiveLevel (logger w)
                           ≤ logging.levelno r)%Z) new.

(** ** Example worlds *)

(** A file arrives in a category folder that already holds its name. *)
Definition C1_world : World :=
  mkWorld
    (list_to_map [(["src"], Dir true); (["src"; "image.png"], File "new");
                  (["src"; "Images"], Dir true);
                  (["src"; "Images"; "image.png"], File "old")])
    (logging.mkLogger logging.INFO [["src"; "log.txt"]]) [] [].

(** The source [/home/Downloads] does not exist. *)
Definition C6_world : World :=
  mkWorld
    (list_to_map [(["home"], Dir true); (["home"; "notes.txt"], File "n")])
    (logging.mkLogger logging.INFO [["home"; "log.txt"]]) [] [].

(** A regular file named [Others] stands where the catch-all folder
    would be created, so the moves into it fail. *)
Definition C7_world : World :=
  mkWorld
    (list_to_map [(["src"], Dir true); (["src"; "Others"], File "o");
                  (["src"; "notes"], File "n"); (["src"; "a.jpg"], File "a")])
    (logging.mkLogger logging.NOTSET []) [] [].

(** The end-to-end scenario of the specification: [a.jpg], [b.pdf], [notes]
    and the subdirectory [old/] in the source, with a fresh logger. *)
Definition scenario_world : World :=
  mkWorld
    (list_to_map [(["src"], Dir true); (["src"; "a.jpg"], File "A");
                  (["src"; "b.pdf"], File "B"); (["src"; "notes"], File "N");
                  (["src"; "old"], Dir true);
                  (["src"; "old"; "x.txt"], File "X")])
    (logging.mkLogger logging.NOTSET []) [] [].

(** A first call of [main] on a source whose directory cannot be listed. *)
Definition unlistable_world : World :=
  mkWorld (list_to_map [(["src"], Dir false); (["src"; "a.jpg"], File "a")])
    (logging.mkLogger logging.NOTSET []) [] [].

(** A later call of [main] in the same interpreter: the logger kept the
    handler of the first call; the new source does not exist. *)
Definition second_call_world : World :=
  mkWorld (list_to_map [(["old"], Dir true); (["old"; "log.txt"], File "")])
    (logging.mkLogger logging.INFO [["old"; "log.txt"]]) [] [].

(** ** Further notions used in the statements *)

(** An ordinary file name: one path component. *)
Definition valid_name (x : string) : Prop :=
  x ≠ "" ∧ x ≠ "." ∧ Str.contains "/" x = false.

(** [log_sync w w']: the logger is the same in both worlds, and of the
    logging calls made between them the log file received exactly those
    the logger writes. *)
Definition log_sync (w w' : World) : Prop :=
  logger w' = logger w
  ∧ ∃ new, emitted w' = emitted w ++ new
           ∧ log_file w' = log_file w
               ++ filter (λ r, logging.writes (logger w) (logging.levelno r)
                               = true) new.

Global Instance valid_name_dec (x : string) : Decision (valid_name x) :=
  ltac:(unfold valid_name; apply _).

(** Every entry directly in [source] has an ordinary name, as the entries
    of a real directory have. *)
Definition ordinary_children (source : Path) (fs : FS) : Prop :=
  map_Forall (λ (k : Path) (_ : node),
                k ≠ [] → pathlib.parent k = source →
                valid_name (pathlib.name k)) fs.

Global Instance ordinary_children_dec (source : Path) (fs : FS) :
  Decision (ordinary_children source fs) :=
  ltac:(unfold ordinary_children; apply _).

(** * Properties *)

(** Unfolds the sequencing of computations down to the worlds they pass. *)
Ltac unfold_M := unfold mbind, M_bind, bind, try_except, ret, M_ret.

(** ** Strings *)

Lemma app_cons a s t : String a s +:+ t = String a (s +:+ t).
Proof. reflexivity. Qed.

Lemma app_empty_l s : "" +:+ s = s.
Proof. reflexivity. Qed.

Lemma app_empty_r s : s +:+ "" = s.
Proof. induction s as [|a s IH]; [done|]. by rewrite app_cons, IH. Qed.

Lemma app_assoc_str s t u : (s +:+ t) +:+ u = s +:+ t +:+ u.
Proof. induction s as [|a s IH]; [done|]. by rewrite !app_cons, IH. Qed.

Lemma length_app_str s t :
  String.length (s +:+ t) = (String.length s + String.length t)%nat.
Proof. induction s as [|a s IH]; [done|]. rewrite app_cons. simpl. by rewrite IH. Qed.

Lemma app_inj_r s1 s2 t : s1 +:+ t = s2 +:+ t → s1 = s2.
Proof.
  revert s2. induction s1 as [|a s1 IH]; intros [|b s2] H; [done| | |].
  - apply (f_equal String.length) in H.
    rewrite app_empty_l, app_cons in H. simpl in H.
    rewrite length_app_str in H. lia.
  - apply (f_equal String.length) in H.
    rewrite app_empty_l, app_cons in H. simpl in H.
    rewrite length_app_str in H. lia.
  - rewrite !app_cons in H. injection H as -> H. f_equal. by apply IH.
Qed.

Lemma contains_app c s t :
  Str.contains c (s +:+ t) = Str.contains c s || Str.contains c t.
Proof.
  induction s as [|a s IH]; [done|].
  rewrite app_cons. simpl. rewrite IH. by rewrite orb_assoc.
Qed.

Lemma drop_length s : Str.drop (String.length s) s = "".
Proof. induction s as [|a s IH]; [done|]. by simpl. Qed.

Lemma take_drop n s : Str.take n s +:+ Str.drop n s = s.
Proof.
  revert s. induction n as [|n IH]; intros [|a s]; try done.
  simpl. rewrite app_cons. by rewrite IH.
Qed.

(** What [rfind] returns: [-1] when the character is absent, and otherwise
    the index of an occurrence that no later occurrence follows. *)
Lemma rfind_spec c s :
  (Str.rfind c s = -1 ∧ Str.contains c s = false)%Z
  ∨ ∃ n : nat, Str.rfind c s = Z.of_nat n ∧ (n < String.length s)%nat
      ∧ Str.drop n s = String c (Str.drop (S n) s)
      ∧ Str.contains c (Str.drop (S n) s) = false.
Proof.
  induction s as [|a s IH]; [by left|].
  simpl. destruct IH as [[-> Hc]|(n & -> & Hn & Hd & Hc)].
  - simpl. destruct (decide (a = c)) as [->|Hne].
    + right. exists 0%nat. repeat split; [lia|done].
    + left. split; [done|]. rewrite Hc. by rewrite bool_decide_eq_false_2.
  - right. exists (S n). destruct (Z.leb_spec 0 (Z.of_nat n)); [|lia].
    repeat split; [lia|lia|done|done].
Qed.

(** ** Lower-casing commutes with the path operations *)

Lemma lower_char_idemp c : Str.lower_char (Str.lower_char c) = Str.lower_char c.
Proof. by destruct c as [[] [] [] [] [] [] [] []]. Qed.

Lemma lower_char_slash c : Str.lower_char c = "/"%char ↔ c = "/"%char.
Proof. destruct c as [[] [] [] [] [] [] [] []]; by vm_compute. Qed.

Lemma lower_char_dot c : Str.lower_char c = "."%char ↔ c = "."%char.
Proof. destruct c as [[] [] [] [] [] [] [] []]; by vm_compute. Qed.

Lemma lower_idemp s : Str.lower (Str.lower s) = Str.lower s.
Proof. induction s as [|a s IH]; [done|]. simpl. by rewrite lower_char_idemp, IH. Qed.

Lemma lower_length s : String.length (Str.lower s) = String.length s.
Proof. induction s as [|a s IH]; [done|]. simpl. by rewrite IH. Qed.

Lemma lower_drop n s : Str.drop n (Str.lower s) = Str.lower (Str.drop n s).
Proof. revert s. induction n as [|n IH]; intros [|a s]; try done. simpl. apply IH. Qed.

Lemma lower_eq_empty s : Str.lower s = "" ↔ s = "".
Proof. by destruct s. Qed.

Lemma lower_eq_dot s : Str.lower s = "." ↔ s = ".".
Proof.
  destruct s as [|a [|b s]]; simpl; [done| |done].
  split; intros [= H]; f_equal; by apply lower_char_dot.
Qed.

Lemma rfind_dot_lower s : Str.rfind "." (Str.lower s) = Str.rfind "." s.
Proof.
  induction s as [|a s IH]; [done|]. simpl. rewrite IH.
  destruct (0 <=? Str.rfind "." s)%Z; [done|].
  destruct (decide (a = "."%char)) as [->|Hne]; [done|].
  rewrite decide_False; [done|]. by rewrite lower_char_dot.
Qed.

Lemma contains_dot_lower s :
  Str.contains "." (Str.lower s) = Str.contains "." s.
Proof.
  induction s as [|a s IH]; [done|]. simpl. rewrite IH. f_equal.
  apply bool_decide_ext, lower_char_dot.
Qed.

Lemma split_sep_nonempty s : pathlib.split_sep s ≠ [].
Proof.
  destruct s as [|a s]; [done|]. simpl.
  destruct (decide (a = "/"%char)); [done|]. by destruct (pathlib.split_sep s).
Qed.

Lemma split_sep_lower s :
  pathlib.split_sep (Str.lower s) = Str.lower <$> pathlib.split_sep s.
Proof.
  induction s as [|a s IH]; [done|]. simpl. rewrite IH.
  destruct (decide (a = "/"%char)) as [->|Hne]; [done|].
  rewrite decide_False by (by rewrite lower_char_slash).
  pose proof (split_sep_nonempty s). by destruct (pathlib.split_sep s).
Qed.

Lemma keep_lower x : pathlib.keep (Str.lower x) ↔ pathlib.keep x.
Proof. unfold pathlib.keep. by rewrite lower_eq_empty, lower_eq_dot. Qed.

Lemma parse_parts_lower s :
  pathlib.parse_parts (Str.lower s) = Str.lower <$> pathlib.parse_parts s.
Proof.
  unfold pathlib.parse_parts. rewrite split_sep_lower.
  induction (pathlib.split_sep s) as [|x l IH]; [done|].
  rewrite fmap_cons, !filter_cons, IH.
  destruct (decide (pathlib.keep x)) as [Hk|Hk].
  - rewrite decide_True by (by apply keep_lower). done.
  - rewrite decide_False by (by rewrite keep_lower). done.
Qed.

Lemma name_lower (p : Path) :
  pathlib.name (Str.lower <$> p) = Str.lower (pathlib.name p).
Proof. unfold pathlib.name. rewrite fmap_last. by destruct (last p). Qed.

Lemma suffix_of_name_lower n :
  pathlib.suffix_of_name (Str.lower n) = Str.lower (pathlib.suffix_of_name n).
Proof.
  unfold pathlib.suffix_of_name, Str.len, Str.slice_from.
  rewrite rfind_dot_lower, lower_length, lower_drop.
  by destruct (_ && _).
Qed.

Lemma normalize_extension_lower name :
  normalize_extension (Str.lower name) = normalize_extension name.
Proof.
  unfold normalize_extension, pathlib.suffix, pathlib.of_str.
  by rewrite parse_parts_lower, name_lower, suffix_of_name_lower, lower_idemp.
Qed.

(** The extension of a base name, by cases on the position of its last
    ["."]. *)
Lemma lstrip_no_dot s : Str.contains "." s = false → Str.lstrip "." s = s.
Proof.
  destruct s as [|a s]; [done|]. simpl. intros [Ha _]%orb_false_elim.
  apply bool_decide_eq_false in Ha. by rewrite decide_False.
Qed.

Lemma normalize_extension_cases name :
  let base := pathlib.name (pathlib.of_str name) in
  (normalize_extension name = ""
   ∧ (Str.rfind "." base = -1 ∨ Str.rfind "." base = 0
      ∨ Str.slice_from (Str.rfind "." base + 1) base = ""))%Z
  ∨ (0 < Str.rfind "." base
     ∧ normalize_extension name
       = Str.lower (Str.slice_from (Str.rfind "." base + 1) base)
     ∧ Str.contains "." (Str.slice_from (Str.rfind "." base + 1) base) = false)%Z.
Proof.
  intros base. unfold normalize_extension, pathlib.suffix. fold base.
  unfold pathlib.suffix_of_name, Str.len, Str.slice_from.
  destruct (rfind_spec "." base) as [[-> _]|(n & -> & Hn & Hd & Hc)].
  { left. by split; [|left]. }
  replace (Z.to_nat (Z.of_nat n + 1)) with (S n) by lia.
  rewrite Nat2Z.id.
  destruct (decide (n = 0)%nat) as [->|Hn0].
  { left. split; [done|]. by right; left. }
  destruct (decide (S n = String.length base)) as [Hlast|Hlast].
  { left. split.
    - destruct (Z.ltb_spec (Z.of_nat n) (Z.of_nat (String.length base) - 1));
        [lia|]. by rewrite andb_false_r.
    - right; right. rewrite Hlast. apply drop_length. }
  right. split; [lia|].
  destruct (Z.ltb_spec 0 (Z.of_nat n)); [|lia].
  destruct (Z.ltb_spec (Z.of_nat n) (Z.of_nat (String.length base) - 1)); [|lia].
  simpl. rewrite Hd. simpl. split; [|done].
  apply lstrip_no_dot. by rewrite contains_dot_lower.
Qed.

Lemma normalize_extension_refines name :
  normalize_extension name = extension_spec name.
Proof.
  unfold extension_spec.
  destruct (normalize_extension_cases name) as [[-> H]|(Hpos & -> & _)].
  - destruct H as [->| [->| H]]; [done|done|].
    repeat case_decide; try done. by rewrite H.
  - repeat case_decide; try done; lia.
Qed.

Lemma normalize_extension_no_dot name :
  Str.contains "." (normalize_extension name) = false.
Proof.
  destruct (normalize_extension_cases name) as [[-> _]|(_ & -> & H)]; [done|].
  by rewrite contains_dot_lower.
Qed.

(** ** Category lookup *)

Lemma get_category_loop_first ext pre c exts post :
  Forall (λ item, ext ∉ item.2) pre → ext ∈ exts →
  get_category_loop ext (pre ++ (c, exts) :: post) = c.
Proof.
  intros Hpre Hin. induction Hpre as [|[c' exts'] pre Hx _ IH]; simpl.
  - by rewrite bool_decide_eq_true_2.
  - by rewrite bool_decide_eq_false_2.
Qed.

Lemma get_category_loop_cases ext (mapping : CategoryMap) :
  (get_category_loop ext mapping = "Others"
   ∧ Forall (λ item, ext ∉ item.2) mapping)
  ∨ ∃ pre c exts post,
      mapping = pre ++ (c, exts) :: post
      ∧ Forall (λ item, ext ∉ item.2) pre
      ∧ ext ∈ exts
      ∧ get_category_loop ext mapping = c.
Proof.
  induction mapping as [|[c exts] rest IH]; [by left|].
  simpl. destruct (decide (ext ∈ exts)) as [Hin|Hnin].
  - right. exists [], c, exts, rest. by rewrite bool_decide_eq_true_2.
  - rewrite bool_decide_eq_false_2 by done.
    destruct IH as [[-> Hall]|(pre & c' & exts' & post & -> & Hpre & Hin & Hc)].
    + left. split; [done|]. by constructor.
    + right. exists ((c, exts) :: pre), c', exts', post.
      repeat split; [by constructor|done|done].
Qed.

(** C4. [get_category] returns the first category, in the order of the
    map, whose extension list contains the extension; for the empty
    extension and for an extension that no category lists it returns
    exactly ["Others"].  With the configured table, ["xyz"] and the empty
    extension resolve to ["Others"]. *)
Theorem C4_get_category_first_match :
  (∀ (ext : string) (mapping : CategoryMap),
     (get_category ext mapping = "Others"
      ∧ (ext = "" ∨ Forall (λ item, ext ∉ item.2) mapping))
     ∨ (ext ≠ ""
        ∧ ∃ pre category exts post,
            mapping = pre ++ (category, exts) :: post
            ∧ Forall (λ item, ext ∉ item.2) pre
            ∧ ext ∈ exts
            ∧ get_category ext mapping = category))
  ∧ get_category "xyz" CATEGORY_MAP = "Others"
  ∧ get_category "" CATEGORY_MAP = "Others"
  ∧ get_category (normalize_extension "data.xyz") CATEGORY_MAP = "Others"
  ∧ get_category (normalize_extension "README") CATEGORY_MAP = "Others".
Proof.
  split; [|by vm_compute].
  intros ext mapping. unfold get_category.
  destruct (decide (ext = "")) as [->|Hne]; [left; auto|].
  destruct (get_category_loop_cases ext mapping) as [[H1 H2]|H]; [left; auto|].
  right. by split.
Qed.



(** ** The candidate names of [make_safe_target] *)

Lemma pretty_N_char_no_slash x : pretty_N_char x ≠ "/"%char.
Proof. unfold pretty_N_char. by repeat case_match. Qed.

Lemma pretty_N_go_no_slash x s :
  Str.contains "/" s = false → Str.contains "/" (pretty_N_go x s) = false.
Proof.
  revert s. induction (N.lt_wf_0 x) as [x _ IH]; intros s Hs.
  destruct (decide (x = 0)%N) as [->|Hx]; [by rewrite pretty_N_go_0|].
  rewrite pretty_N_go_step by lia. apply IH.
  - apply N.div_lt; lia.
  - simpl. rewrite Hs.
    by rewrite bool_decide_eq_false_2 by apply pretty_N_char_no_slash.
Qed.

Lemma pretty_nat_no_slash (n : nat) : Str.contains "/" (pretty n) = false.
Proof.
  unfold pretty, pretty_nat, pretty, pretty_N.
  case_decide; [done|]. by apply pretty_N_go_no_slash.
Qed.

(** Splitting a string around a piece that holds no separator: the piece
    stays inside one component, and the components around it do not depend
    on it. *)
Lemma split_sep_no_slash_l mid y :
  Str.contains "/" mid = false →
  ∃ hy ty, pathlib.split_sep y = hy :: ty
           ∧ pathlib.split_sep (mid +:+ y) = (mid +:+ hy) :: ty.
Proof.
  intros Hmid.
  destruct (pathlib.split_sep y) as [|hy ty] eqn:Hy;
    [by destruct (split_sep_nonempty y)|].
  exists hy, ty. split; [done|].
  induction mid as [|a mid IH]; [done|].
  simpl in Hmid. apply orb_false_elim in Hmid as [Ha Hmid].
  apply bool_decide_eq_false in Ha.
  rewrite app_cons. simpl. rewrite decide_False by done.
  by rewrite IH.
Qed.

Lemma split_sep_around x y :
  ∃ before lx hy after,
    ∀ mid, Str.contains "/" mid = false →
      pathlib.split_sep (x +:+ mid +:+ y)
      = before ++ (lx +:+ mid +:+ hy) :: after.
Proof.
  induction x as [|a x IH].
  - destruct (pathlib.split_sep y) as [|hy ty] eqn:Hy;
      [by destruct (split_sep_nonempty y)|].
    exists [], "", hy, ty. intros mid Hmid. rewrite !app_empty_l.
    destruct (split_sep_no_slash_l mid y Hmid) as (hy' & ty' & Hy' & ->).
    rewrite Hy in Hy'. by injection Hy' as <- <-.
  - destruct IH as (before & lx & hy & after & IH).
    destruct (decide (a = "/"%char)) as [->|Ha].
    + exists ("" :: before), lx, hy, after. intros mid Hmid.
      rewrite app_cons. simpl. by rewrite IH.
    + destruct before as [|b before].
      * exists [], (String a lx), hy, after. intros mid Hmid.
        rewrite app_cons. simpl. rewrite decide_False by done.
        by rewrite IH.
      * exists (String a b :: before), lx, hy, after. intros mid Hmid.
        rewrite app_cons. simpl. rewrite decide_False by done.
        by rewrite IH.
Qed.

Lemma counter_tag_no_slash n : Str.contains "/" (counter_tag n) = false.
Proof.
  unfold counter_tag. by rewrite !contains_app, pretty_nat_no_slash.
Qed.

Lemma counter_tag_inj n m t : counter_tag n +:+ t = counter_tag m +:+ t → n = m.
Proof.
  unfold counter_tag. intros H. apply app_inj_r in H.
  apply (inj (String.app " (")) in H. apply app_inj_r in H.
  by apply (inj pretty) in H.
Qed.

Lemma keep_around lx n hy : pathlib.keep (lx +:+ counter_tag n +:+ hy).
Proof.
  unfold counter_tag. split.
  - by destruct lx.
  - destruct lx as [|a [|b lx]]; [done| |done].
    rewrite app_cons. intros [= _ H].
Qed.

(** The parts of a candidate name, for every round, are the same list with
    one component that carries the counter. *)
Lemma parse_parts_candidate name suffix :
  ∃ before lx hy after,
    ∀ n : nat, pathlib.parse_parts (name +:+ " (" +:+ pretty n +:+ ")" +:+ suffix)
         = before ++ (lx +:+ counter_tag n +:+ hy) :: after.
Proof.
  destruct (split_sep_around name suffix) as (before & lx & hy & after & H).
  exists (filter pathlib.keep before), lx, hy, (filter pathlib.keep after).
  intros n. unfold pathlib.parse_parts.
  replace (name +:+ " (" +:+ pretty n +:+ ")" +:+ suffix)
    with (name +:+ counter_tag n +:+ suffix)
    by (unfold counter_tag; by rewrite !app_assoc_str).
  rewrite H by apply counter_tag_no_slash.
  rewrite filter_app, filter_cons.
  by rewrite decide_True by apply keep_around.
Qed.

Lemma is_absolute_candidate name suffix (n m : nat) :
  pathlib.is_absolute (name +:+ " (" +:+ pretty n +:+ ")" +:+ suffix)
  = pathlib.is_absolute (name +:+ " (" +:+ pretty m +:+ ")" +:+ suffix).
Proof. by destruct name. Qed.

Lemma candidate_inj target_dir name suffix :
  Inj (=) (=) (candidate target_dir name suffix).
Proof.
  intros n m. unfold candidate, pathlib.joinpath.
  rewrite (is_absolute_candidate name suffix n m).
  destruct (parse_parts_candidate name suffix)
    as (before & lx & hy & after & Hparts).
  rewrite !Hparts.
  destruct (pathlib.is_absolute _); intros H.
  - apply app_inv_head in H. injection H as H.
    apply (inj (String.app lx)) in H. by apply counter_tag_inj in H.
  - apply app_inv_head, app_inv_head in H. injection H as H.
    apply (inj (String.app lx)) in H. by apply counter_tag_inj in H.
Qed.

Lemma candidate_not_root target_dir name suffix n :
  candidate target_dir name suffix n ≠ [].
Proof.
  unfold candidate, pathlib.joinpath.
  destruct (parse_parts_candidate name suffix)
    as (before & lx & hy & after & Hparts).
  rewrite Hparts. destruct (pathlib.is_absolute _).
  - by destruct before.
  - intros H. apply app_eq_nil in H as [_ H]. by destruct before.
Qed.

(** ** The probing loop *)

Section probing.

Context (fs : FS) (target_dir : Path) (name suffix : string).

Lemma make_safe_target_loop_some fuel counter p :
  make_safe_target_loop fuel fs target_dir name suffix counter = Some p →
  ∃ n, counter ≤ n < counter + fuel
       ∧ p = candidate target_dir name suffix n
       ∧ os.path_exists fs p = false
       ∧ ∀ m, counter ≤ m < n →
           os.path_exists fs (candidate target_dir name suffix m) = true.
Proof.
  revert counter. induction fuel as [|fuel IH]; intros counter H; [done|].
  simpl in H.
  destruct (os.path_exists fs (candidate target_dir name suffix counter))
    eqn:Hex; simpl in H.
  - apply IH in H as (n & Hn & -> & Hfree & Hbelow).
    exists n. repeat split; [lia|lia|done|].
    intros m Hm. destruct (decide (m = counter)) as [->|]; [done|].
    apply Hbelow. lia.
  - injection H as <-. exists counter. repeat split; [lia|lia|done|].
    intros m Hm. lia.
Qed.

Lemma make_safe_target_loop_finds fuel counter n :
  counter ≤ n < counter + fuel →
  os.path_exists fs (candidate target_dir name suffix n) = false →
  is_Some (make_safe_target_loop fuel fs target_dir name suffix counter).
Proof.
  revert counter. induction fuel as [|fuel IH]; intros counter Hn Hfree; [lia|].
  simpl.
  destruct (os.path_exists fs (candidate target_dir name suffix counter))
    eqn:Hex; simpl; [|done].
  apply IH; [|done].
  destruct (decide (n = counter)) as [->|]; [congruence|lia].
Qed.

Lemma make_safe_target_loop_mono fuel fuel' counter p :
  make_safe_target_loop fuel fs target_dir name suffix counter = Some p →
  fuel ≤ fuel' →
  make_safe_target_loop fuel' fs target_dir name suffix counter = Some p.
Proof.
  revert fuel' counter.
  induction fuel as [|fuel IH]; intros fuel' counter H Hle; [done|].
  destruct fuel' as [|fuel']; [lia|]. simpl in *.
  destruct (negb _); [done|]. apply IH; [done|lia].
Qed.

(** Finitely many entries cannot occupy every candidate: among the first
    [S (size fs)] rounds one candidate is free. *)
Lemma free_candidate :
  ∃ n, 1 ≤ n ≤ S (size fs)
       ∧ os.path_exists fs (candidate target_dir name suffix n) = false.
Proof.
  set (cand := candidate target_dir name suffix).
  set (cs := cand <$> seq 1 (S (size fs))).
  destruct (decide (Exists (λ p, os.path_exists fs p = false) cs)) as [Hex|Hall].
  - apply Exists_exists in Hex as (p & Hp & Hfree).
    apply list_elem_of_fmap in Hp as (n & -> & Hn).
    apply elem_of_seq in Hn. exists n. split; [lia|done].
  - exfalso. apply not_Exists_Forall in Hall; [|apply _].
    assert (list_to_set cs ⊆ dom fs) as Hsub.
    { intros p Hp. apply elem_of_list_to_set in Hp.
      rewrite Forall_forall in Hall. specialize (Hall p Hp). simpl in Hall.
      apply list_elem_of_fmap in Hp as (n & -> & _).
      apply elem_of_dom. unfold os.path_exists, os.lookup_node in Hall.
      pose proof (candidate_not_root target_dir name suffix n) as Hroot.
      fold cand in Hroot. destruct (cand n) eqn:Hc; [done|].
      destruct (fs !! _); [done|]. done. }
    apply subseteq_size in Hsub.
    rewrite size_list_to_set, size_dom in Hsub.
    + unfold cs in Hsub. rewrite length_fmap, length_seq in Hsub. lia.
    + apply NoDup_fmap_2; [apply candidate_inj|apply NoDup_seq].
Qed.

Lemma make_safe_target_loop_none fuel counter :
  (∀ m, counter ≤ m < counter + fuel →
     os.path_exists fs (candidate target_dir name suffix m) = true) →
  make_safe_target_loop fuel fs target_dir name suffix counter = None.
Proof.
  revert counter. induction fuel as [|fuel IH]; intros counter H; [done|].
  simpl. rewrite H by lia. simpl. apply IH. intros m Hm. apply H. lia.
Qed.

End probing.

Lemma make_safe_target_fuel_enough fs target_dir filename fuel :
  S (size fs) ≤ fuel →
  make_safe_target_fuel fuel fs target_dir filename
  = Some (make_safe_target fs target_dir filename).
Proof.
  intros Hfuel. unfold make_safe_target.
  assert (is_Some (make_safe_target_fuel (S (size fs)) fs target_dir filename))
    as [p Hp].
  { unfold make_safe_target_fuel. destruct (negb _); [done|].
    destruct (free_candidate fs target_dir
                (pathlib.stem (pathlib.joinpath target_dir filename))
                (pathlib.suffix (pathlib.joinpath target_dir filename)))
      as (n & Hn & Hfree).
    eapply make_safe_target_loop_finds; [|done]. lia. }
  rewrite Hp. simpl. unfold make_safe_target_fuel in *.
  destruct (negb _); [done|].
  by eapply make_safe_target_loop_mono.
Qed.

(** What [make_safe_target] returns. *)
Lemma make_safe_target_cases fs target_dir filename :
  let target := pathlib.joinpath target_dir filename in
  (os.path_exists fs target = false
   ∧ make_safe_target fs target_dir filename = target)
  ∨ (os.path_exists fs target = true
     ∧ ∃ n, 1 ≤ n ≤ S (size fs)
         ∧ make_safe_target fs target_dir filename
           = candidate target_dir (pathlib.stem target) (pathlib.suffix target) n
         ∧ os.path_exists fs
             (candidate target_dir (pathlib.stem target) (pathlib.suffix target) n)
           = false
         ∧ ∀ m, 1 ≤ m < n →
             os.path_exists fs
               (candidate target_dir (pathlib.stem target)
                  (pathlib.suffix target) m) = true).
Proof.
  intros target.
  pose proof (make_safe_target_fuel_enough fs target_dir filename
                (S (size fs)) (le_n _)) as H.
  unfold make_safe_target_fuel in H. fold target in H.
  destruct (os.path_exists fs target) eqn:Hex; cbn [negb] in H.
  - right. split; [done|].
    apply make_safe_target_loop_some in H as (n & Hn & Heq & Hfree & Hbelow).
    exists n. rewrite Heq in Hfree. repeat split; try done; lia.
  - left. split; [done|]. by injection H.
Qed.

Lemma make_safe_target_fresh fs target_dir filename :
  os.path_exists fs (make_safe_target fs target_dir filename) = false.
Proof.
  destruct (make_safe_target_cases fs target_dir filename)
    as [[Hex ->]|(_ & n & _ & -> & Hfree & _)]; done.
Qed.

Lemma name_joinpath target_dir filename :
  pathlib.parse_parts filename ≠ [] →
  pathlib.name (pathlib.joinpath target_dir filename)
  = pathlib.name (pathlib.of_str filename).
Proof.
  intros Hparts. unfold pathlib.joinpath, pathlib.of_str, pathlib.name.
  destruct (pathlib.is_absolute filename); [done|].
  destruct (pathlib.parse_parts filename) as [|x l] using rev_ind; [done|].
  by rewrite app_assoc, !last_snoc.
Qed.

(** C2. When [directory/filename] does not exist, [make_safe_target]
    returns it unchanged.  Otherwise it returns
    [directory/"{stem} ({n}){extension}"] for the least [n >= 1] whose
    candidate does not exist, where stem and extension are those of the
    final component of [directory/filename], which is the filename's own
    whenever the filename has a component.  With [report.pdf] present the
    result is [report (1).pdf]; with [report (1).pdf] present too it is
    [report (2).pdf]. *)
Theorem C2_make_safe_target_algorithm :
  (∀ (fs : FS) (directory : Path) (filename : string),
     let target := pathlib.joinpath directory filename in
     let stem := pathlib.stem target in
     let extension := pathlib.suffix target in
     (os.path_exists fs target = false →
      make_safe_target fs directory filename = target)
     ∧ (os.path_exists fs target = true →
        ∃ n : nat,
          1 ≤ n
          ∧ make_safe_target fs directory filename
            = pathlib.joinpath directory
                (stem +:+ " (" +:+ pretty n +:+ ")" +:+ extension)
          ∧ os.path_exists fs (make_safe_target fs directory filename) = false
          ∧ ∀ m : nat, 1 ≤ m < n →
              os.path_exists fs
                (pathlib.joinpath directory
                   (stem +:+ " (" +:+ pretty m +:+ ")" +:+ extension)) = true)
     ∧ (pathlib.parse_parts filename ≠ [] →
        stem = pathlib.stem (pathlib.of_str filename)
        ∧ extension = pathlib.suffix (pathlib.of_str filename)))
  ∧ make_safe_target
      (list_to_map [(["d"], Dir true); (["d"; "report.pdf"], File "r0")])
      ["d"] "report.pdf"
    = ["d"; "report (1).pdf"]
  ∧ make_safe_target
      (list_to_map [(["d"], Dir true); (["d"; "report.pdf"], File "r0");
                    (["d"; "report (1).pdf"], File "r1")])
      ["d"] "report.pdf"
    = ["d"; "report (2).pdf"].
Proof.
  split; [|by vm_compute].
  intros fs directory filename target stem extension.
  destruct (make_safe_target_cases fs directory filename)
    as [[Hex Heq]|(Hex & n & Hn & Heq & Hfree & Hbelow)]; fold target in Hex.
  - split; [done|]. split; [congruence|].
    intros Hparts. unfold stem, extension, target, pathlib.stem, pathlib.suffix.
    by rewrite (name_joinpath directory filename Hparts).
  - split; [congruence|]. split.
    + intros _. exists n. rewrite Heq. repeat split; [lia|done|done].
    + intros Hparts. unfold stem, extension, target, pathlib.stem, pathlib.suffix.
      by rewrite (name_joinpath directory filename Hparts).
Qed.

Lemma C2_make_safe_target_algorithm_witness :
  let fs : FS :=
    list_to_map [(["d"], Dir true); (["d"; "a.tar.gz"], File "x")] in
  os.path_exists fs ["d"; "b.txt"] = false
  ∧ make_safe_target fs ["d"] "b.txt" = ["d"; "b.txt"]
  ∧ os.path_exists fs ["d"; "a.tar.gz"] = true
  ∧ (∃ n : nat,
       1 ≤ n
       ∧ make_safe_target fs ["d"] "a.tar.gz"
         = pathlib.joinpath ["d"] ("a.tar" +:+ " (" +:+ pretty n +:+ ")" +:+ ".gz")
       ∧ os.path_exists fs (make_safe_target fs ["d"] "a.tar.gz") = false
       ∧ ∀ m : nat, 1 ≤ m < n →
           os.path_exists fs
             (pathlib.joinpath ["d"]
                ("a.tar" +:+ " (" +:+ pretty m +:+ ")" +:+ ".gz")) = true)
  ∧ pathlib.parse_parts "a.tar.gz" ≠ []
  ∧ "a.tar" = pathlib.stem (pathlib.of_str "a.tar.gz")
  ∧ ".gz" = pathlib.suffix (pathlib.of_str "a.tar.gz").
Proof.
  intros fs.
  assert (os.path_exists fs ["d"; "b.txt"] = false) as Hfree
    by (by vm_compute).
  assert (os.path_exists fs ["d"; "a.tar.gz"] = true) as Htaken
    by (by vm_compute).
  assert (pathlib.parse_parts "a.tar.gz" ≠ []) as Hparts
    by (by vm_compute).
  pose proof (proj1 C2_make_safe_target_algorithm fs ["d"] "a.tar.gz")
    as (_ & H2 & H3).
  pose proof (proj1 C2_make_safe_target_algorithm fs ["d"] "b.txt")
    as (H1 & _ & _).
  split; [exact Hfree|]. split; [exact (H1 Hfree)|].
  split; [exact Htaken|]. split; [exact (H2 Htaken)|].
  split; [exact Hparts|]. exact (H3 Hparts).
Defined.

(** C10. [make_safe_target] terminates on every input.  A file system has
    finitely many entries, so some candidate is free; the loop stops in the
    round of the least free candidate, which is at most one more than the
    number of entries: with that many rounds or more it returns its result,
    with fewer it is still running. *)
Theorem C10_make_safe_target_terminates :
  ∀ (fs : FS) (target_dir : Path) (filename : string),
    let target := pathlib.joinpath target_dir filename in
    let cand := candidate target_dir (pathlib.stem target) (pathlib.suffix target) in
    (∃ n : nat, 1 ≤ n ∧ os.path_exists fs (cand n) = false)
    ∧ ∃ rounds : nat,
        rounds ≤ S (size fs)
        ∧ (∀ fuel, rounds ≤ fuel →
             make_safe_target_fuel fuel fs target_dir filename
             = Some (make_safe_target fs target_dir filename))
        ∧ (∀ fuel, fuel < rounds →
             make_safe_target_fuel fuel fs target_dir filename = None)
        ∧ (os.path_exists fs target = true →
             1 ≤ rounds
             ∧ make_safe_target fs target_dir filename = cand rounds
             ∧ os.path_exists fs (cand rounds) = false
             ∧ ∀ m : nat, 1 ≤ m < rounds → os.path_exists fs (cand m) = true).
Proof.
  intros fs target_dir filename target cand. split.
  { destruct (free_candidate fs target_dir (pathlib.stem target)
                (pathlib.suffix target)) as (n & Hn & Hfree).
    exists n. split; [lia|done]. }
  destruct (make_safe_target_cases fs target_dir filename)
    as [[Hex Heq]|(Hex & n & Hn & Heq & Hfree & Hbelow)];
    fold target in Hex, Heq.
  - exists 0. split; [lia|]. split; [|split; [lia|congruence]].
    intros fuel _. unfold make_safe_target_fuel. fold target.
    rewrite Hex, Heq. done.
  - fold target cand in Heq, Hfree, Hbelow.
    exists n. split; [lia|]. split; [|split].
    + intros fuel Hfuel. unfold make_safe_target_fuel. fold target.
      rewrite Hex. cbn [negb]. rewrite Heq.
      destruct (make_safe_target_loop_finds fs target_dir
                  (pathlib.stem target) (pathlib.suffix target) fuel 1 n)
        as [p Hp]; [lia|done|].
      rewrite Hp. f_equal.
      apply make_safe_target_loop_some in Hp
        as (n' & Hn' & -> & Hfree' & Hbelow').
      fold cand in Hfree', Hbelow' |- *. f_equal.
      destruct (decide (n' < n)) as [Hlt|Hge].
      { rewrite Hbelow in Hfree' by lia. done. }
      destruct (decide (n < n')) as [Hlt|Hge'].
      { rewrite Hbelow' in Hfree by lia. done. }
      lia.
    + intros fuel Hfuel. unfold make_safe_target_fuel. fold target.
      rewrite Hex. cbn [negb]. apply make_safe_target_loop_none.
      intros m Hm. apply Hbelow. lia.
    + intros _. repeat split; [lia|done|done|done].
Qed.

Lemma C10_make_safe_target_terminates_witness :
  let fs : FS :=
    list_to_map [(["d"], Dir true); (["d"; "report.pdf"], File "r0");
                 (["d"; "report (1).pdf"], File "r1")] in
  os.path_exists fs ["d"; "report.pdf"] = true
  ∧ make_safe_target_fuel 4 fs ["d"] "report.pdf"
    = Some (make_safe_target fs ["d"] "report.pdf")
  ∧ os.path_exists fs (make_safe_target fs ["d"] "report.pdf") = false.
Proof.
  intros fs.
  assert (os.path_exists fs ["d"; "report.pdf"] = true) as Hex
    by (by vm_compute).
  destruct (C10_make_safe_target_terminates fs ["d"] "report.pdf")
    as (_ & rounds & Hle & Henough & _ & Hleast).
  destruct (Hleast Hex) as (_ & Heq & Hfree & _).
  split; [exact Hex|]. split.
  - apply Henough. exact Hle.
  - rewrite Heq. exact Hfree.
Defined.

(** ** File-system calls keep what they do not touch *)

Lemma mkdir_from_preserves (above : Path) (below : list string)
  (fs fs' : FS) (p : Path) (v : node) :
  os.mkdir_from above below fs = Ok fs' →
  fs !! p = Some v → fs' !! p = Some v.
Proof.
  revert above fs. induction below as [|x rest IH]; intros above fs H Hp.
  { simpl in H. by injection H as <-. }
  simpl in H. destruct (fs !! (above ++ [x])) as [[c|b]|] eqn:Hq.
  - done.
  - by eapply IH.
  - eapply IH; [done|]. rewrite lookup_insert_ne; [done|]. congruence.
Qed.

Lemma mkdir_parents_preserves (path : Path) (fs fs' : FS) (p : Path) (v : node) :
  os.mkdir_parents path fs = Ok fs' →
  fs !! p = Some v → fs' !! p = Some v.
Proof. apply mkdir_from_preserves. Qed.

Lemma path_exists_false_lookup (fs : FS) (p : Path) :
  os.path_exists fs p = false → p ≠ [] ∧ fs !! p = None.
Proof.
  unfold os.path_exists, os.lookup_node. destruct p; [done|].
  by destruct (fs !! _).
Qed.

Lemma mkdir_parents_fresh (path : Path) (fs fs' : FS) (p : Path) :
  os.mkdir_parents path fs = Ok fs' →
  os.path_exists fs' p = false → os.path_exists fs p = false.
Proof.
  intros Hmk Hfresh. apply path_exists_false_lookup in Hfresh as [Hroot Hnone].
  unfold os.path_exists, os.lookup_node. destruct p as [|x p]; [done|].
  destruct (fs !! (x :: p)) as [v|] eqn:Hp; [|done].
  by rewrite (mkdir_parents_preserves _ _ _ _ _ Hmk Hp) in Hnone.
Qed.

Lemma rename_fresh (src dst : Path) (fs fs' : FS) :
  os.path_exists fs dst = false →
  os.rename src dst fs = Ok fs' →
  (∃ c, fs !! src = Some (File c) ∧ fs' = <[dst := File c]> (delete src fs))
  ∨ (∃ b, fs !! src = Some (Dir b) ∧ fs' = os.rename_tree src dst fs).
Proof.
  intros Hfresh H. pose proof Hfresh as [Hroot Hnone]%path_exists_false_lookup.
  unfold os.rename in H.
  assert (os.lookup_node fs dst = None) as Hl.
  { unfold os.lookup_node. by destruct dst. }
  destruct src as [|x src]; [done|].
  destruct (fs !! (x :: src)) as [[c|b]|] eqn:Hsrc; [| |done].
  - destruct (negb _); [done|]. rewrite Hl in H. injection H as <-.
    left. by exists c.
  - destruct (negb _); [done|]. rewrite Hl in H.
    case_decide; [done|]. injection H as <-. right. by exists b.
Qed.

Lemma move_fresh (src dst : Path) (fs fs' : FS) :
  os.path_exists fs dst = false →
  shutil.move src dst fs = Ok fs' →
  os.rename src dst fs = Ok fs'.
Proof.
  intros Hfresh H. unfold shutil.move in H.
  assert (os.is_dir fs dst = false) as Hd.
  { unfold os.path_exists in Hfresh. unfold os.is_dir.
    by destruct (os.lookup_node fs dst). }
  rewrite Hd in H. destruct (os.rename src dst fs); [done|].
  by destruct (_ && _).
Qed.

Lemma move_preserves (src dst : Path) (fs fs' : FS) (p : Path) (v : node) :
  os.path_exists fs dst = false →
  shutil.move src dst fs = Ok fs' →
  fs !! p = Some v →
  fs' !! p = Some v ∨ src `prefix_of` p.
Proof.
  intros Hfresh Hmove Hp. pose proof Hfresh as [_ Hnone]%path_exists_false_lookup.
  apply move_fresh in Hmove; [|done].
  destruct (decide (src `prefix_of` p)) as [|Hnp]; [by right|left].
  destruct (rename_fresh _ _ _ _ Hfresh Hmove)
    as [(c & Hsrc & ->)|(b & Hsrc & ->)].
  - rewrite lookup_insert_ne by congruence.
    rewrite lookup_delete_ne; [done|]. by intros ->.
  - unfold os.rename_tree. apply lookup_union_Some_l.
    by apply map_lookup_filter_Some_2.
Qed.

(** The move primitive by itself does replace a regular file that is already
    at the destination; only the choice of a free target prevents it. *)
Lemma move_replaces_existing_file :
  shutil.move ["d"; "new.txt"] ["d"; "old.txt"]
    (list_to_map [(["d"], Dir true); (["d"; "new.txt"], File "new");
                  (["d"; "old.txt"], File "old")])
  = Ok (list_to_map [(["d"], Dir true); (["d"; "old.txt"], File "new")]).
Proof. by vm_compute. Qed.

(** ** [safe_move], case by case *)

Lemma safe_move_cases src dest_dir w :
  match os.mkdir_parents dest_dir (fs w) with
  | Raise exc =>
      safe_move src dest_dir w
      = (Ok None, logged logging.ERROR (failed_msg src dest_dir exc) w)
  | Ok fs1 =>
      let target := make_safe_target fs1 dest_dir (pathlib.name src) in
      match shutil.move src target fs1 with
      | Raise exc =>
          safe_move src dest_dir w
          = (Ok None,
             logged logging.ERROR (failed_msg src dest_dir exc) (set_fs w fs1))
      | Ok fs2 =>
          safe_move src dest_dir w
          = (Ok (Some target),
             logged logging.INFO (moved_msg src target) (set_fs w fs2))
      end
  end.
Proof.
  unfold safe_move, safe_move_body, ensure_dir, fs_call. unfold_M.
  destruct (os.mkdir_parents dest_dir (fs w)) as [fs1|exc]; [|done].
  simpl. by destruct (shutil.move src _ fs1) as [fs2|exc].
Qed.

Lemma safe_move_preserves (src dest_dir : Path) (w : World) (p : Path) (v : node) :
  fs w !! p = Some v →
  fs (safe_move src dest_dir w).2 !! p = Some v ∨ src `prefix_of` p.
Proof.
  intros Hp. pose proof (safe_move_cases src dest_dir w) as H.
  destruct (os.mkdir_parents dest_dir (fs w)) as [fs1|exc] eqn:Hmk.
  - cbv zeta in H.
    destruct (shutil.move src _ fs1) as [fs2|exc] eqn:Hmv; rewrite H; simpl.
    + eapply move_preserves; [apply make_safe_target_fresh|done|].
      by eapply mkdir_parents_preserves.
    + left. by eapply mkdir_parents_preserves.
  - rewrite H. by left.
Qed.



(** C5. [safe_move] never raises and returns an optional path.  When the
    directory can be ensured and the move succeeds it returns the target
    and logs one INFO record naming the source and the target; when either
    step fails it returns [None] and logs one ERROR record naming the
    source, the destination directory and the error.  The record reaches
    the log file whenever the logger writes at that level. *)
Theorem C5_safe_move_outcome :
  ∀ (src dest_dir : Path) (w : World),
    let out := safe_move src dest_dir w in
    (∃ (target : Path) (fs1 : FS) (record : LogRecord),
       out.1 = Ok (Some target)
       ∧ os.mkdir_parents dest_dir (fs w) = Ok fs1
       ∧ target = make_safe_target fs1 dest_dir (pathlib.name src)
       ∧ shutil.move src target fs1 = Ok (fs out.2)
       ∧ record = logging.mkRecord logging.INFO
                    ("Moved: " +:+ pathlib.to_str src +:+ " -> "
                     +:+ pathlib.to_str target)
       ∧ emitted out.2 = emitted w ++ [record]
       ∧ log_file out.2
         = if logging.writes (logger w) logging.INFO
           then log_file w ++ [record] else log_file w)
    ∨ (∃ (exc : exn) (record : LogRecord),
         out.1 = Ok None
         ∧ ((os.mkdir_parents dest_dir (fs w) = Raise exc ∧ fs out.2 = fs w)
            ∨ (os.mkdir_parents dest_dir (fs w) = Ok (fs out.2)
               ∧ shutil.move src
                   (make_safe_target (fs out.2) dest_dir (pathlib.name src))
                   (fs out.2) = Raise exc))
         ∧ record = logging.mkRecord logging.ERROR
                      ("Failed to move " +:+ pathlib.to_str src +:+ " -> "
                       +:+ pathlib.to_str dest_dir +:+ ": " +:+ exn_str exc)
         ∧ emitted out.2 = emitted w ++ [record]
         ∧ log_file out.2
           = if logging.writes (logger w) logging.ERROR
             then log_file w ++ [record] else log_file w).
Proof.
  intros src dest_dir w out. subst out.
  pose proof (safe_move_cases src dest_dir w) as H.
  destruct (os.mkdir_parents dest_dir (fs w)) as [fs1|exc] eqn:Hmk.
  - cbv zeta in H.
    destruct (shutil.move src _ fs1) as [fs2|exc] eqn:Hmv; rewrite H.
    + left. eexists _, fs1, _. repeat split; try done.
    + right. exists exc. eexists. repeat split; try done. by right.
  - rewrite H. right. exists exc. eexists. repeat split; try done. by left.
Qed.

(** ** The scan *)

Lemma safe_move_returns src dest_dir w :
  ∃ r, (safe_move src dest_dir w).1 = Ok r.
Proof.
  pose proof (safe_move_cases src dest_dir w) as H.
  destruct (os.mkdir_parents dest_dir (fs w)) as [fs1|exc].
  - cbv zeta in H. destruct (shutil.move src _ fs1); rewrite H; by eexists.
  - rewrite H. by eexists.
Qed.

Lemma safe_move_one_record src dest_dir w :
  length (emitted (safe_move src dest_dir w).2) = S (length (emitted w)).
Proof.
  pose proof (safe_move_cases src dest_dir w) as H.
  destruct (os.mkdir_parents dest_dir (fs w)) as [fs1|exc].
  - cbv zeta in H. destruct (shutil.move src _ fs1); rewrite H; simpl;
      rewrite length_app; simpl; lia.
  - rewrite H. simpl. rewrite length_app. simpl. lia.
Qed.

Lemma process_entry_cases source mapping entry w :
  process_entry source mapping entry w
  = (Ok tt,
     match entry_is_file entry with
     | Raise exc => logged logging.ERROR (entry_error_msg entry exc) w
     | Ok true =>
         (safe_move (entry_path entry) (dest_dir_of source mapping entry) w).2
     | Ok false => logged logging.DEBUG (skipped_msg entry) w
     end).
Proof.
  unfold process_entry. unfold_M.
  destruct (entry_is_file entry) as [[|]|exc]; [|done|done].
  fold (dest_dir_of source mapping entry).
  destruct (safe_move_returns (entry_path entry)
              (dest_dir_of source mapping entry) w) as [r Hr].
  destruct (safe_move _ _ w) as [res w']. simpl in Hr. by rewrite Hr.
Qed.

Lemma process_entry_one_record source mapping entry w :
  length (emitted (process_entry source mapping entry w).2)
  = S (length (emitted w)).
Proof.
  rewrite process_entry_cases. simpl.
  destruct (entry_is_file entry) as [[|]|exc].
  - apply safe_move_one_record.
  - simpl. rewrite length_app. simpl. lia.
  - simpl. rewrite length_app. simpl. lia.
Qed.

Lemma for_each_cons source mapping entry rest w :
  for_each (entry :: rest) (process_entry source mapping) w
  = for_each rest (process_entry source mapping)
      (process_entry source mapping entry w).2.
Proof.
  simpl. unfold_M. by rewrite process_entry_cases.
Qed.

Lemma for_each_returns source mapping entries w :
  (for_each entries (process_entry source mapping) w).1 = Ok tt
  ∧ length (emitted (for_each entries (process_entry source mapping) w).2)
    = length (emitted w) + length entries.
Proof.
  revert w. induction entries as [|entry rest IH]; intros w.
  { simpl. split; [done|lia]. }
  rewrite for_each_cons. destruct (IH (process_entry source mapping entry w).2)
    as [-> ->]. split; [done|].
  rewrite process_entry_one_record. simpl. lia.
Qed.

Lemma organize_folder_invalid source mapping w :
  os.path_exists (fs w) source = false ∨ os.is_dir (fs w) source = false →
  organize_folder source mapping w
  = (Raise (FileNotFoundError
              ("Source folder not found: " +:+ pathlib.to_str source)),
     logged logging.ERROR (source_error_msg source) w).
Proof.
  intros H. unfold organize_folder.
  assert (negb (os.path_exists (fs w) source) || negb (os.is_dir (fs w) source)
          = true) as ->; [|done].
  destruct H as [-> | ->]; [done|]. apply orb_true_r.
Qed.

Lemma organize_folder_valid source mapping w :
  os.lookup_node (fs w) source = Some (Dir true) →
  ∃ entries,
    scandir source w = (Ok entries, w)
    ∧ organize_folder source mapping w
      = for_each entries (process_entry source mapping) w.
Proof.
  intros H. unfold organize_folder, os.path_exists, os.is_dir, scandir.
  rewrite H. simpl. eexists. split; [done|].
  unfold_M. unfold scandir. by rewrite H.
Qed.

Lemma organize_folder_unlistable source mapping w :
  os.lookup_node (fs w) source = Some (Dir false) →
  organize_folder source mapping w
  = (Raise (PermissionError
              ("[Errno 13] Permission denied: " +:+ pathlib.to_str source)), w).
Proof.
  intros H. unfold organize_folder, os.path_exists, os.is_dir.
  rewrite H. simpl. unfold_M. unfold scandir. by rewrite H.
Qed.

(** The three ways a call of [organize_folder] can go: the scan runs over
    the entries of the source; the source cannot be listed and the world
    stays as it is; the source is rejected and one record is logged. *)
Lemma organize_folder_cases source mapping w :
  (∃ entries,
     scandir source w = (Ok entries, w)
     ∧ organize_folder source mapping w
       = for_each entries (process_entry source mapping) w)
  ∨ (∃ exc, organize_folder source mapping w = (Raise exc, w))
  ∨ organize_folder source mapping w
    = (Raise (FileNotFoundError
                ("Source folder not found: " +:+ pathlib.to_str source)),
       logged logging.ERROR (source_error_msg source) w).
Proof.
  destruct (os.lookup_node (fs w) source) as [[c|[|]]|] eqn:Hsrc.
  - right; right. apply organize_folder_invalid.
    right. unfold os.is_dir. by rewrite Hsrc.
  - left. by apply organize_folder_valid.
  - right; left. eexists. by apply organize_folder_unlistable.
  - right; right. apply organize_folder_invalid.
    left. unfold os.path_exists. by rewrite Hsrc.
Qed.

(** C6. When the source does not exist or is not a directory,
    [organize_folder] logs one ERROR record and raises the
    [FileNotFoundError] "Source folder not found"; the file system is left
    exactly as it was, so no folder is created and no file is moved. *)
Theorem C6_source_validation :
  ∀ (source : Path) (mapping : CategoryMap) (w : World),
    os.path_exists (fs w) source = false ∨ os.is_dir (fs w) source = false →
    let out := organize_folder source mapping w in
    let record :=
      logging.mkRecord logging.ERROR
        ("Source folder does not exist or is not a directory: "
         +:+ pathlib.to_str source) in
    out.1 = Raise (FileNotFoundError
                     ("Source folder not found: " +:+ pathlib.to_str source))
    ∧ fs out.2 = fs w
    ∧ emitted out.2 = emitted w ++ [record]
    ∧ log_file out.2
      = if logging.writes (logger w) logging.ERROR
        then log_file w ++ [record] else log_file w.
Proof.
  intros source mapping w H out record. subst out.
  by rewrite organize_folder_invalid.
Qed.

Lemma C6_source_validation_witness :
  let out := organize_folder ["home"; "Downloads"] CATEGORY_MAP C6_world in
  (os.path_exists (fs C6_world) ["home"; "Downloads"] = false
   ∨ os.is_dir (fs C6_world) ["home"; "Downloads"] = false)
  ∧ out.1 = Raise (FileNotFoundError "Source folder not found: /home/Downloads")
  ∧ fs out.2 = fs C6_world
  ∧ emitted out.2
    = [logging.mkRecord logging.ERROR
         "Source folder does not exist or is not a directory: /home/Downloads"]
  ∧ log_file out.2
    = [logging.mkRecord logging.ERROR
         "Source folder does not exist or is not a directory: /home/Downloads"].
Proof.
  intros out.
  assert (os.path_exists (fs C6_world) ["home"; "Downloads"] = false
          ∨ os.is_dir (fs C6_world) ["home"; "Downloads"] = false) as H
    by (left; by vm_compute).
  split; [exact H|].
  exact (C6_source_validation ["home"; "Downloads"] CATEGORY_MAP C6_world H).
Defined.

(** ** [main] *)

Lemma main_cases source w :
  match setup_logger (pathlib.joinpath source LOG_FILENAME) w with
  | (Raise exc, w1) => main source w = (Raise exc, w1)
  | (Ok _, w1) =>
      match organize_folder source CATEGORY_MAP
              (logged logging.INFO (start_msg source) w1) with
      | (Ok _, w3) =>
          main source w
          = (Ok 0%Z, logged logging.INFO "Organization complete" w3)
      | (Raise exc, w3) =>
          main source w
          = (Ok 2%Z, logged logging.ERROR (unhandled_msg exc) w3)
      end
  end.
Proof.
  unfold main. unfold_M.
  destruct (setup_logger _ w) as [[[]|exc] w1]; [|done].
  unfold logger_info at 1. unfold logged, start_msg, logger_info. simpl.
  by destruct (organize_folder source CATEGORY_MAP _) as [[[]|exc] w3].
Qed.

(** C7. The per-entry guard never lets an exception out: an entry whose
    processing raises is logged at ERROR, and the loop goes on with the
    remaining entries whatever happened to the current one.  The scan
    therefore returns normally after attempting every entry, each of which
    leaves exactly one log call.  Whenever the logger can be set up and the
    source is a listable directory the run exits with status 0, as in the
    example run, where two moves fail. *)
Theorem C7_per_entry_isolation :
  (∀ (source : Path) (mapping : CategoryMap) (entry : DirEntry) (w : World),
     (process_entry source mapping entry w).1 = Ok tt)
  ∧ (∀ (source : Path) (mapping : CategoryMap) (entry : DirEntry)
       (exc : exn) (w : World),
       entry_is_file entry = Raise exc →
       let out := process_entry source mapping entry w in
       let record :=
         logging.mkRecord logging.ERROR
           ("Error processing " +:+ pathlib.to_str (entry_path entry)
            +:+ ": " +:+ exn_str exc) in
       out.1 = Ok tt ∧ fs out.2 = fs w ∧ emitted out.2 = emitted w ++ [record])
  ∧ (∀ (source : Path) (mapping : CategoryMap) (entry : DirEntry)
       (rest : list DirEntry) (w : World),
       for_each (entry :: rest) (process_entry source mapping) w
       = for_each rest (process_entry source mapping)
           (process_entry source mapping entry w).2)
  ∧ (∀ (source : Path) (mapping : CategoryMap) (entries : list DirEntry)
       (w : World),
       let out := for_each entries (process_entry source mapping) w in
       out.1 = Ok tt
       ∧ length (emitted out.2) = length (emitted w) + length entries)
  ∧ (∀ (source : Path) (w w1 : World),
       setup_logger (pathlib.joinpath source LOG_FILENAME) w = (Ok tt, w1) →
       os.lookup_node (fs w1) source = Some (Dir true) →
       (run source w).1 = 0%Z)
  ∧ ((run ["src"] C7_world).1 = 0%Z
     ∧ logging.mkRecord logging.ERROR
         "Failed to move /src/notes -> /src/Others: [Errno 17] File exists: /src/Others"
       ∈ log_file (run ["src"] C7_world).2
     ∧ fs (run ["src"] C7_world).2 !! ["src"; "Images"; "a.jpg"]
       = Some (File "a")).
Proof.
  split; [intros; by rewrite process_entry_cases|].
  split.
  { intros source mapping entry exc w H out record. subst out.
    rewrite process_entry_cases, H. done. }
  split; [apply for_each_cons|].
  split; [intros; apply for_each_returns|].
  split.
  - intros source w w1 Hsetup Hdir. unfold run.
    pose proof (main_cases source w) as H. rewrite Hsetup in H.
    destruct (organize_folder_valid source CATEGORY_MAP
                (logged logging.INFO (start_msg source) w1) Hdir)
      as (entries & _ & Horg).
    rewrite Horg in H.
    destruct (for_each_returns source CATEGORY_MAP entries
                (logged logging.INFO (start_msg source) w1)) as [Hok _].
    destruct (for_each entries _ _) as [r w3]. simpl in Hok. subst r.
    by rewrite H.
  - split; [by vm_compute|]. split; [|by vm_compute].
    vm_compute. do 3 right. left.
Qed.

(** ** What reaches the log file *)

Lemma log_extends_refl w : log_extends w w.
Proof. split; [done|]. exists []. by rewrite app_nil_r. Qed.

Lemma log_extends_trans w1 w2 w3 :
  log_extends w1 w2 → log_extends w2 w3 → log_extends w1 w3.
Proof.
  intros [Hl1 (n1 & Hf1 & Hn1)] [Hl2 (n2 & Hf2 & Hn2)].
  split; [congruence|]. exists (n1 ++ n2).
  rewrite Hf2, Hf1, app_assoc. split; [done|].
  apply Forall_app. split; [done|]. by rewrite Hl1 in Hn2.
Qed.

Lemma log_extends_set_fs w fs' : log_extends w (set_fs w fs').
Proof. split; [done|]. exists []. by rewrite app_nil_r. Qed.

Lemma log_extends_logged lvl msg w : log_extends w (logged lvl msg w).
Proof.
  split; [done|]. unfold logged, logger_log. simpl.
  destruct (logging.writes (logger w) lvl) eqn:Hw.
  - eexists. split; [done|]. constructor; [|done]. simpl.
    unfold logging.writes, logging.isEnabledFor in Hw.
    apply andb_true_iff in Hw as [Hw _]. by apply bool_decide_eq_true in Hw.
  - exists []. by rewrite app_nil_r.
Qed.

Create HintDb log_db.
#[export] Hint Resolve log_extends_refl log_extends_set_fs
  log_extends_logged : log_db.

Lemma safe_move_log_extends src dest_dir w :
  log_extends w (safe_move src dest_dir w).2.
Proof.
  pose proof (safe_move_cases src dest_dir w) as H.
  destruct (os.mkdir_parents dest_dir (fs w)) as [fs1|exc].
  - cbv zeta in H. destruct (shutil.move src _ fs1); rewrite H; cbn [snd];
      (eapply log_extends_trans; [apply log_extends_set_fs|]);
      auto with log_db.
  - rewrite H. cbn [snd]. auto with log_db.
Qed.

Lemma process_entry_log_extends source mapping entry w :
  log_extends w (process_entry source mapping entry w).2.
Proof.
  rewrite process_entry_cases. simpl.
  destruct (entry_is_file entry) as [[|]|exc];
    auto using safe_move_log_extends with log_db.
Qed.

Lemma for_each_log_extends source mapping entries w :
  log_extends w (for_each entries (process_entry source mapping) w).2.
Proof.
  revert w. induction entries as [|entry rest IH]; intros w.
  { apply log_extends_refl. }
  rewrite for_each_cons. eapply log_extends_trans; [|apply IH].
  apply process_entry_log_extends.
Qed.

Lemma organize_folder_log_extends source mapping w :
  log_extends w (organize_folder source mapping w).2.
Proof.
  destruct (organize_folder_cases source mapping w)
    as [(entries & _ & ->)|[(exc & ->)| ->]]; cbn [snd];
    auto using for_each_log_extends with log_db.
Qed.

Lemma setup_logger_cases log_path w :
  let out := setup_logger log_path w in
  log_file out.2 = log_file w ∧ emitted out.2 = emitted w
  ∧ logging.level (logger out.2) = logging.INFO
  ∧ (out.1 = Ok tt ∨ ∃ exc, out.1 = Raise exc ∧ fs out.2 = fs w
                             ∧ logging.handlers (logger w) = []).
Proof.
  unfold setup_logger. simpl.
  destruct (logging.handlers (logger w)) as [|h hs] eqn:Hh.
  - destruct (os.open_append log_path (fs w)) as [fs'|exc]; simpl.
    + repeat split; auto.
    + repeat split; eauto.
  - simpl. repeat split; auto.
Qed.

Lemma main_log_levels source w r :
  r ∈ log_file (main source w).2 →
  r ∈ log_file w ∨ (logging.INFO ≤ logging.levelno r)%Z.
Proof.
  pose proof (main_cases source w) as H.
  pose proof (setup_logger_cases (pathlib.joinpath source LOG_FILENAME) w)
    as (Hfile & _ & Hlevel & _).
  destruct (setup_logger _ w) as [[[]|exc] w1]; simpl in Hfile, Hlevel;
    [|rewrite H; simpl; rewrite Hfile; auto].
  assert (∀ w', log_extends w1 w' → r ∈ log_file w' →
                r ∈ log_file w ∨ (logging.INFO ≤ logging.levelno r)%Z) as Hext.
  { intros w' [_ (new & -> & Hnew)] [Hr|Hr]%elem_of_app.
    - left. by rewrite <-Hfile.
    - right. rewrite Forall_forall in Hnew. specialize (Hnew r Hr).
      unfold logging.getEffectiveLevel in Hnew. rewrite Hlevel in Hnew.
      by rewrite decide_False in Hnew. }
  pose proof (organize_folder_log_extends source CATEGORY_MAP
                (logged logging.INFO (start_msg source) w1)) as Horg.
  destruct (organize_folder source CATEGORY_MAP _) as [[[]|exc] w3];
    rewrite H; cbn [snd] in Horg |- *; apply Hext;
    (eapply log_extends_trans; [apply log_extends_logged|]);
    (eapply log_extends_trans; [apply Horg|]);
    apply log_extends_logged.
Qed.

(** ** Directories stay where they are *)

Lemma for_each_preserves source mapping (entries : list DirEntry) (w : World)
  (p : Path) (v : node) :
  (∀ e, e ∈ entries → entry_is_file e = Ok true →
        ¬ entry_path e `prefix_of` p) →
  fs w !! p = Some v →
  fs (for_each entries (process_entry source mapping) w).2 !! p = Some v.
Proof.
  revert w. induction entries as [|entry rest IH]; intros w Hfiles Hp; [done|].
  rewrite for_each_cons. apply IH.
  { intros e He. apply Hfiles. by right. }
  rewrite process_entry_cases. cbn [snd].
  destruct (entry_is_file entry) as [[|]|exc] eqn:Hfile; [|done|done].
  destruct (safe_move_preserves (entry_path entry)
              (dest_dir_of source mapping entry) w p v Hp) as [|Hpre]; [done|].
  destruct (Hfiles entry); [by left|done|done].
Qed.

Lemma scandir_entries source w entries e :
  scandir source w = (Ok entries, w) → e ∈ entries →
  ∃ n, fs w !! entry_path e = Some n
       ∧ entry_path e ≠ []
       ∧ pathlib.parent (entry_path e) = source
       ∧ entry_is_file e
         = Ok (match n with File _ => true | Dir _ => false end).
Proof.
  unfold scandir. destruct (os.lookup_node (fs w) source) as [[c|[|]]|];
    intros [= <-] He; [].
  apply list_elem_of_fmap in He as ([k n] & -> & Hkn).
  apply list_elem_of_filter in Hkn as [[Hne Hpar] Hkn].
  apply elem_of_map_to_list in Hkn. by exists n.
Qed.

Lemma siblings_disjoint (a d p : Path) :
  a ≠ [] → d ≠ [] → pathlib.parent a = pathlib.parent d →
  a `prefix_of` p → d `prefix_of` p → a = d.
Proof.
  unfold pathlib.parent. intros Ha Hd Hpar [ka Hpa] [kd Hpd].
  rewrite (app_removelast_last "" Ha) in Hpa |- *.
  rewrite (app_removelast_last "" Hd) in Hpd |- *.
  rewrite Hpar in Hpa |- *. rewrite Hpa in Hpd.
  rewrite <-!app_assoc in Hpd. apply app_inv_head in Hpd.
  injection Hpd as -> _. done.
Qed.

Lemma organize_folder_keeps_directory source mapping (w : World)
  (d : Path) (b : bool) (p : Path) (v : node) :
  d ≠ [] → pathlib.parent d = source → fs w !! d = Some (Dir b) →
  d `prefix_of` p → fs w !! p = Some v →
  fs (organize_folder source mapping w).2 !! p = Some v.
Proof.
  intros Hd Hpar Hdir Hdp Hp.
  destruct (organize_folder_cases source mapping w)
    as [(entries & Hscan & ->)|[(exc & ->)| ->]]; [|done|done].
  apply for_each_preserves; [|done].
  intros e He Hfile Hpre.
  destruct (scandir_entries source w entries e Hscan He)
    as (n & Hn & Hne & Hepar & Hkind).
  assert (entry_path e = d) as Heq.
  { apply (siblings_disjoint _ _ p); congruence. }
  rewrite Heq, Hdir in Hn. injection Hn as <-. congruence.
Qed.

(** ** The only directories a scan creates are destination directories *)

Lemma mkdir_from_lookup (above : Path) (below : list string) (fs fs' : FS)
  (q : Path) (n : node) :
  os.mkdir_from above below fs = Ok fs' → fs' !! q = Some n →
  fs !! q = Some n ∨ (n = Dir true ∧ q `prefix_of` above ++ below).
Proof.
  revert above fs. induction below as [|x rest IH]; intros above fs H Hq.
  { simpl in H. injection H as <-. by left. }
  simpl in H. destruct (fs !! (above ++ [x])) as [[c|b]|] eqn:Hx; [done| |].
  - destruct (IH _ _ H Hq) as [|[-> Hpre]]; [by left|right].
    split; [done|]. by rewrite <-app_assoc in Hpre.
  - destruct (IH _ _ H Hq) as [Hin|[-> Hpre]].
    + apply lookup_insert_Some in Hin as [[<- <-]|[_ Hin]]; [right|by left].
      split; [done|]. exists rest. by rewrite <-app_assoc.
    + right. split; [done|]. by rewrite <-app_assoc in Hpre.
Qed.

Lemma safe_move_new_dirs (src dest_dir : Path) (w : World) (c : string)
  (q : Path) (b : bool) :
  fs w !! src = Some (File c) →
  fs (safe_move src dest_dir w).2 !! q = Some (Dir b) →
  fs w !! q = Some (Dir b) ∨ q `prefix_of` dest_dir.
Proof.
  intros Hsrc. pose proof (safe_move_cases src dest_dir w) as H.
  destruct (os.mkdir_parents dest_dir (fs w)) as [fs1|exc] eqn:Hmk;
    [|by rewrite H; left].
  assert (∀ n, fs1 !! q = Some n → fs w !! q = Some n ∨ q `prefix_of` dest_dir)
    as Hmkdir.
  { intros n Hn. destruct (mkdir_from_lookup _ _ _ _ _ _ Hmk Hn) as [|[_ Hp]];
      [by left|by right]. }
  cbv zeta in H.
  destruct (shutil.move src _ fs1) as [fs2|exc] eqn:Hmv; rewrite H; simpl;
    [|apply Hmkdir].
  pose proof (make_safe_target_fresh fs1 dest_dir (pathlib.name src)) as Hfresh.
  apply move_fresh in Hmv; [|done].
  apply (mkdir_parents_preserves _ _ _ _ _ Hmk) in Hsrc.
  destruct (rename_fresh _ _ _ _ Hfresh Hmv)
    as [(c' & _ & ->)|(b' & Hsrc' & _)]; [|congruence].
  intros Hq. apply lookup_insert_Some in Hq as [[_ [=]]|[_ Hq]].
  apply lookup_delete_Some in Hq as [_ Hq]. by apply Hmkdir.
Qed.

Lemma for_each_new_dirs source mapping (entries : list DirEntry) (w : World)
  (q : Path) (b : bool) :
  NoDup (entry_path <$> entries) →
  (∀ e, e ∈ entries →
        entry_path e ≠ [] ∧ pathlib.parent (entry_path e) = source) →
  (∀ e, e ∈ entries → entry_is_file e = Ok true →
        ∃ c, fs w !! entry_path e = Some (File c)) →
  fs (for_each entries (process_entry source mapping) w).2 !! q = Some (Dir b) →
  fs w !! q = Some (Dir b)
  ∨ ∃ e, e ∈ entries ∧ q `prefix_of` dest_dir_of source mapping e.
Proof.
  revert w. induction entries as [|entry rest IH];
    intros w Hnodup Hchild Hfiles Hq; [by left|].
  rewrite for_each_cons in Hq. rewrite fmap_cons in Hnodup.
  apply NoDup_cons in Hnodup as [Hnotin Hnodup].
  assert (∀ e, e ∈ rest → entry_is_file e = Ok true →
            ∃ c, fs (process_entry source mapping entry w).2 !! entry_path e
                 = Some (File c)) as Hfiles'.
  { intros e He Hfile.
    destruct (Hfiles e) as [c Hc]; [by right|done|]. exists c.
    rewrite process_entry_cases. cbn [snd].
    destruct (entry_is_file entry) as [[|]|exc]; [|done|done].
    destruct (safe_move_preserves (entry_path entry)
                (dest_dir_of source mapping entry) w _ _ Hc) as [|Hpre]; [done|].
    destruct Hnotin. replace (entry_path entry) with (entry_path e).
    { by apply list_elem_of_fmap_2. }
    destruct (Hchild e) as [? ?]; [by right|].
    destruct (Hchild entry) as [? ?]; [by left|].
    symmetry. apply (siblings_disjoint _ _ (entry_path e)); [done|done| |done|done].
    congruence. }
  assert (∀ e, e ∈ rest →
            entry_path e ≠ [] ∧ pathlib.parent (entry_path e) = source)
    as Hchild' by (intros e He; apply Hchild; by right).
  destruct (IH _ Hnodup Hchild' Hfiles' Hq) as [Hq'|(e & He & Hpre)].
  - rewrite process_entry_cases in Hq'. cbn [snd] in Hq'.
    destruct (entry_is_file entry) as [[|]|exc] eqn:Hfile;
      [|by left|by left].
    destruct (Hfiles entry) as [c Hc]; [by left|done|].
    destruct (safe_move_new_dirs _ _ _ _ _ _ Hc Hq') as [|Hpre]; [by left|right].
    exists entry. split; [by left|done].
  - right. exists e. split; [by right|done].
Qed.

Lemma NoDup_fst_filter {A B} (P : A * B → Prop) `{∀ x, Decision (P x)}
  (l : list (A * B)) :
  NoDup l.*1 → NoDup (filter P l).*1.
Proof.
  induction l as [|x l IH]; [done|]. rewrite fmap_cons, filter_cons.
  intros [Hx Hl]%NoDup_cons. destruct (decide (P x)); [|by apply IH].
  rewrite fmap_cons. apply NoDup_cons. split; [|by apply IH].
  intros (y & Hy & Hin)%list_elem_of_fmap.
  apply list_elem_of_filter in Hin as [_ Hin]. apply Hx.
  rewrite Hy. by apply list_elem_of_fmap_2.
Qed.

Lemma scandir_NoDup source w entries :
  scandir source w = (Ok entries, w) → NoDup (entry_path <$> entries).
Proof.
  unfold scandir. destruct (os.lookup_node (fs w) source) as [[c|[|]]|];
    intros [= <-]; [].
  rewrite <-list_fmap_compose.
  apply (NoDup_fst_filter (is_child source)), NoDup_fst_map_to_list.
Qed.

Lemma organize_folder_new_dirs source mapping (w : World) (q : Path) (b : bool) :
  fs (organize_folder source mapping w).2 !! q = Some (Dir b) →
  fs w !! q = Some (Dir b)
  ∨ ∃ category, q `prefix_of` pathlib.joinpath source category.
Proof.
  destruct (organize_folder_cases source mapping w)
    as [(entries & Hscan & ->)|[(exc & ->)| ->]]; [|by left|by left].
  intros Hq. destruct (for_each_new_dirs source mapping entries w q b)
    as [|(e & _ & Hpre)]; [| | |done|by left|right; by eexists].
  - by eapply scandir_NoDup.
  - intros e He.
    by destruct (scandir_entries source w entries e Hscan He)
      as (n & _ & ? & ? & _).
  - intros e He Hfile.
    destruct (scandir_entries source w entries e Hscan He)
      as (n & Hn & _ & _ & Hkind).
    rewrite Hfile in Hkind. destruct n as [c|b']; [by exists c|done].
Qed.

Lemma setup_logger_preserves log_path (w : World) (p : Path) (v : node) :
  fs w !! p = Some v → fs (setup_logger log_path w).2 !! p = Some v.
Proof.
  intros Hp. unfold setup_logger. simpl.
  destruct (logging.handlers (logger w)); [|done].
  unfold os.open_append. destruct (negb _); [done|].
  destruct (os.lookup_node (fs w) log_path) as [[c|b]|] eqn:Hlog; try done.
  simpl. rewrite lookup_insert_ne; [done|]. intros <-.
  unfold os.lookup_node in Hlog. destruct log_path; congruence.
Qed.

Lemma main_keeps_directory source (w : World)
  (d : Path) (b : bool) (p : Path) (v : node) :
  d ≠ [] → pathlib.parent d = source → fs w !! d = Some (Dir b) →
  d `prefix_of` p → fs w !! p = Some v →
  fs (main source w).2 !! p = Some v.
Proof.
  intros Hd Hpar Hdir Hdp Hp.
  pose proof (main_cases source w) as H.
  pose proof (setup_logger_preserves
                (pathlib.joinpath source LOG_FILENAME) w d _ Hdir) as Hdir1.
  pose proof (setup_logger_preserves
                (pathlib.joinpath source LOG_FILENAME) w p _ Hp) as Hp1.
  destruct (setup_logger _ w) as [[[]|exc] w1]; cbn [snd] in Hdir1, Hp1;
    [|by rewrite H].
  pose proof (organize_folder_keeps_directory source CATEGORY_MAP
                (logged logging.INFO (start_msg source) w1) d b p v
                Hd Hpar Hdir1 Hdp Hp1) as Hkeep.
  destruct (organize_folder source CATEGORY_MAP _) as [[[]|exc] w3];
    by rewrite H.
Qed.




Lemma writes_info_level (hs : list Path) (lvl : Z) :
  hs ≠ [] → (logging.INFO ≤ lvl)%Z →
  logging.writes (logging.mkLogger logging.INFO hs) lvl = true.
Proof.
  intros Hhs Hlvl. unfold logging.writes, logging.isEnabledFor,
    logging.getEffectiveLevel. cbn [logging.level logging.handlers].
  rewrite decide_False by done.
  rewrite bool_decide_eq_true_2 by done.
  by rewrite bool_decide_eq_false_2.
Qed.

Lemma setup_logger_writes log_path w w1 lvl :
  setup_logger log_path w = (Ok tt, w1) →
  (logging.INFO ≤ lvl)%Z → logging.writes (logger w1) lvl = true.
Proof.
  unfold setup_logger. cbn [logger set_logger logging.handlers fs].
  intros H Hlvl.
  destruct (logging.handlers (logger w)) as [|h hs] eqn:Hh.
  - destruct (os.open_append log_path (fs w)); [|done].
    injection H as <-. by apply writes_info_level.
  - injection H as <-. cbn [logger set_logger]. by apply writes_info_level.
Qed.




Lemma C7_per_entry_isolation_witness :
  let entry := mkEntry "ghost" ["src"; "ghost"]
                 (Raise (OSError "[Errno 5] Input/output error")) in
  let out := process_entry ["src"] CATEGORY_MAP entry C7_world in
  let w1 := (setup_logger ["src"; "log.txt"] C7_world).2 in
  entry_is_file entry = Raise (OSError "[Errno 5] Input/output error")
  ∧ (out.1 = Ok tt
     ∧ fs out.2 = fs C7_world
     ∧ emitted out.2
       = emitted C7_world
         ++ [logging.mkRecord logging.ERROR
               ("Error processing " +:+ pathlib.to_str (entry_path entry)
                +:+ ": " +:+ exn_str (OSError "[Errno 5] Input/output error"))])
  ∧ setup_logger (pathlib.joinpath ["src"] LOG_FILENAME) C7_world = (Ok tt, w1)
  ∧ os.lookup_node (fs w1) ["src"] = Some (Dir true)
  ∧ (run ["src"] C7_world).1 = 0%Z.
Proof.
  intros entry out w1.
  pose proof C7_per_entry_isolation as (_ & Hguard & _ & _ & Hrun & _).
  assert (entry_is_file entry = Raise (OSError "[Errno 5] Input/output error"))
    as H1 by reflexivity.
  assert (setup_logger (pathlib.joinpath ["src"] LOG_FILENAME) C7_world
          = (Ok tt, w1)) as H2 by (by vm_compute).
  assert (os.lookup_node (fs w1) ["src"] = Some (Dir true)) as H3
    by (by vm_compute).
  split; [exact H1|].
  split; [exact (Hguard ["src"] CATEGORY_MAP entry _ C7_world H1)|].
  split; [exact H2|]. split; [exact H3|].
  exact (Hrun ["src"] C7_world w1 H2 H3).
Defined.

(** * Further properties of the code *)

(** ** Ordinary names *)

Lemma split_sep_no_slash s :
  Str.contains "/" s = false → pathlib.split_sep s = [s].
Proof.
  induction s as [|a s IH]; [done|]. simpl.
  intros [Ha Hs]%orb_false_elim. apply bool_decide_eq_false in Ha.
  rewrite decide_False by done. by rewrite IH.
Qed.

Lemma parse_parts_valid x : valid_name x → pathlib.parse_parts x = [x].
Proof.
  intros (Hne & Hdot & Hslash). unfold pathlib.parse_parts.
  rewrite split_sep_no_slash by done.
  rewrite filter_cons, decide_True by done. done.
Qed.

Lemma joinpath_valid (d : Path) x :
  valid_name x → pathlib.joinpath d x = d ++ [x].
Proof.
  intros Hx. unfold pathlib.joinpath. rewrite parse_parts_valid by done.
  destruct Hx as (Hne & _ & Hslash). destruct x as [|a x]; [done|].
  simpl in Hslash. apply orb_false_elim in Hslash as [Ha _].
  apply bool_decide_eq_false in Ha. simpl.
  destruct a as [[] [] [] [] [] [] [] []]; try done.
Qed.

Lemma name_snoc (d : Path) x : pathlib.name (d ++ [x]) = x.
Proof. unfold pathlib.name. by rewrite last_snoc. Qed.

Lemma parent_snoc (d : Path) x : pathlib.parent (d ++ [x]) = d.
Proof. unfold pathlib.parent. apply removelast_last. Qed.

(** ** [ensure_dir] *)

Lemma mkdir_from_dirs (above : Path) (below : list string) (fs fs' : FS)
  (r : list string) :
  os.mkdir_from above below fs = Ok fs' →
  r ≠ [] → r `prefix_of` below →
  ∃ b, fs' !! (above ++ r) = Some (Dir b).
Proof.
  revert above fs r. induction below as [|x rest IH]; intros above fs r H Hr Hpre.
  { apply prefix_nil_inv in Hpre. done. }
  destruct r as [|y r]; [done|].
  pose proof (prefix_cons_inv_1 _ _ _ _ Hpre) as ->.
  apply prefix_cons_inv_2 in Hpre.
  simpl in H.
  replace (above ++ x :: r) with ((above ++ [x]) ++ r)
    by (by rewrite <-app_assoc).
  assert (∀ fs1 b1, fs1 !! (above ++ [x]) = Some (Dir b1) →
            os.mkdir_from (above ++ [x]) rest fs1 = Ok fs' →
            ∃ b, fs' !! ((above ++ [x]) ++ r) = Some (Dir b)) as Hstep.
  { intros fs1 b1 Hq Hrec. destruct r as [|z r].
    - rewrite app_nil_r. exists b1. by eapply mkdir_from_preserves.
    - by eapply IH. }
  destruct (fs !! (above ++ [x])) as [[c|b]|] eqn:Hq; [done| |].
  - by eapply Hstep.
  - eapply Hstep; [|done]. apply lookup_insert_eq.
Qed.

Lemma mkdir_from_fixed (above : Path) (below : list string) (fs : FS) :
  (∀ r, r ≠ [] → r `prefix_of` below →
        ∃ b, fs !! (above ++ r) = Some (Dir b)) →
  os.mkdir_from above below fs = Ok fs.
Proof.
  revert above. induction below as [|x rest IH]; intros above H; [done|].
  simpl. destruct (H [x]) as [b ->]; [done|by exists rest|].
  apply IH. intros r Hr Hpre. rewrite <-app_assoc. apply H; [done|].
  by apply prefix_cons.
Qed.

Lemma mkdir_from_raises (above : Path) (below : list string) (fs : FS) :
  (∃ exc, os.mkdir_from above below fs = Raise exc)
  ↔ ∃ r c, r ≠ [] ∧ r `prefix_of` below
           ∧ fs !! (above ++ r) = Some (File c).
Proof.
  revert above fs. induction below as [|x rest IH]; intros above fs.
  { simpl. split; [by intros [? ?]|].
    intros (r & c & Hr & Hpre & _). by apply prefix_nil_inv in Hpre. }
  simpl. split.
  - intros [exc H].
    destruct (fs !! (above ++ [x])) as [[c|b]|] eqn:Hq.
    + exists [x], c. split; [done|]. split; [by exists rest|done].
    + destruct (proj1 (IH _ _) (ex_intro _ exc H)) as (r & c & Hr & Hpre & Hc).
      exists (x :: r), c. split; [done|]. split; [by apply prefix_cons|].
      by rewrite <-app_assoc in Hc.
    + destruct (proj1 (IH _ _) (ex_intro _ exc H)) as (r & c & Hr & Hpre & Hc).
      exists (x :: r), c. split; [done|]. split; [by apply prefix_cons|].
      rewrite <-app_assoc in Hc. simpl in Hc.
      rewrite lookup_insert_ne in Hc; [done|].
      intros Heq. apply (f_equal length) in Heq.
      rewrite !length_app in Heq. simpl in Heq.
      destruct r; [done|]. simpl in Heq. lia.
  - intros (r & c & Hr & Hpre & Hc).
    destruct r as [|y r]; [done|].
    pose proof (prefix_cons_inv_1 _ _ _ _ Hpre) as ->.
    apply prefix_cons_inv_2 in Hpre.
    destruct r as [|z r].
    { rewrite Hc. by eexists. }
    assert (∀ fs1, fs1 !! (above ++ x :: z :: r) = Some (File c) →
              ∃ exc, os.mkdir_from (above ++ [x]) rest fs1 = Raise exc) as Hrec.
    { intros fs1 Hc1. apply IH. exists (z :: r), c.
      split; [done|]. split; [done|]. by rewrite <-app_assoc. }
    destruct (fs !! (above ++ [x])) as [[c'|b]|] eqn:Hq;
      [by eexists|by apply Hrec|].
    apply Hrec. rewrite lookup_insert_ne; [done|].
    intros Heq. apply (f_equal length) in Heq.
    rewrite !length_app in Heq. simpl in Heq. lia.
Qed.

(** X1. When [ensure_dir] succeeds, the path and all its ancestors are
    directories afterwards, every entry that existed before is still there
    with the same content, and calling it again changes nothing. *)
Theorem X1_ensure_dir_postcondition :
  ∀ (path : Path) (w w' : World),
    ensure_dir path w = (Ok tt, w') →
    (∀ q, q `prefix_of` path → os.is_dir (fs w') q = true)
    ∧ (∀ (p : Path) (v : node), fs w !! p = Some v → fs w' !! p = Some v)
    ∧ ensure_dir path w' = (Ok tt, w').
Proof.
  intros path w w'. unfold ensure_dir, fs_call, os.mkdir_parents.
  destruct (os.mkdir_from [] path (fs w)) as [fs1|exc] eqn:Hmk; [|done].
  intros [= <-]. cbn [fs set_fs].
  assert (∀ r, r ≠ [] → r `prefix_of` path → ∃ b, fs1 !! r = Some (Dir b))
    as Hdirs.
  { intros r Hr Hpre. by apply (mkdir_from_dirs [] path (fs w) fs1 r). }
  split; [|split].
  - intros q Hq. unfold os.is_dir, os.lookup_node.
    destruct q as [|x q]; [done|].
    by destruct (Hdirs (x :: q)) as [b ->].
  - intros p v Hp. by eapply mkdir_from_preserves.
  - rewrite (mkdir_from_fixed [] path fs1) by done. done.
Qed.

Lemma X1_ensure_dir_postcondition_witness :
  let w := scenario_world in
  let w' := (ensure_dir ["src"; "Images"; "2024"] w).2 in
  ensure_dir ["src"; "Images"; "2024"] w = (Ok tt, w')
  ∧ os.is_dir (fs w') ["src"; "Images"] = true
  ∧ fs w' !! ["src"; "a.jpg"] = Some (File "A")
  ∧ ensure_dir ["src"; "Images"; "2024"] w' = (Ok tt, w').
Proof.
  intros w w'.
  assert (ensure_dir ["src"; "Images"; "2024"] w = (Ok tt, w')) as H
    by (by vm_compute).
  destruct (X1_ensure_dir_postcondition _ _ _ H) as (Hdirs & Hkeep & Hagain).
  split; [exact H|]. split; [|split; [|exact Hagain]].
  - apply Hdirs. by exists ["2024"].
  - apply Hkeep. by vm_compute.
Defined.


(** ** [setup_logger] *)

(** X3. Once [setup_logger] has succeeded, a further call, with whatever
    log path, succeeds and changes nothing: no second handler is added and
    no other log file is opened.  A logger that had no handler has exactly
    the one for the given path; a logger that had handlers keeps them. *)
Theorem X3_setup_logger_idempotent :
  ∀ (log_path other_path : Path) (w w1 : World),
    setup_logger log_path w = (Ok tt, w1) →
    setup_logger other_path w1 = (Ok tt, w1)
    ∧ logging.level (logger w1) = logging.INFO
    ∧ (logging.handlers (logger w) = [] →
       logging.handlers (logger w1) = [log_path])
    ∧ (logging.handlers (logger w) ≠ [] →
       logging.handlers (logger w1) = logging.handlers (logger w)
       ∧ fs w1 = fs w).
Proof.
  intros log_path other_path w w1. unfold setup_logger.
  cbn [logger set_logger logging.handlers fs].
  destruct (logging.handlers (logger w)) as [|h hs] eqn:Hh.
  - destruct (os.open_append log_path (fs w)) as [fs'|exc]; [|done].
    intros [= <-]. cbn. by repeat split.
  - intros [= <-]. cbn. by repeat split.
Qed.

Lemma X3_setup_logger_idempotent_witness :
  let w1 := (setup_logger ["src"; "log.txt"] scenario_world).2 in
  setup_logger ["src"; "log.txt"] scenario_world = (Ok tt, w1)
  ∧ setup_logger ["elsewhere"; "log.txt"] w1 = (Ok tt, w1)
  ∧ logging.handlers (logger scenario_world) = []
  ∧ logging.handlers (logger w1) = [["src"; "log.txt"]].
Proof.
  intros w1.
  assert (setup_logger ["src"; "log.txt"] scenario_world = (Ok tt, w1)) as H
    by (by vm_compute).
  assert (logging.handlers (logger scenario_world) = []) as Hnone
    by reflexivity.
  destruct (X3_setup_logger_idempotent _ ["elsewhere"; "log.txt"] _ _ H)
    as (Hagain & _ & Hfirst & _).
  split; [exact H|]. split; [exact Hagain|]. split; [exact Hnone|].
  exact (Hfirst Hnone).
Defined.

Lemma log_path_parent (source : Path) :
  pathlib.parent (pathlib.joinpath source LOG_FILENAME) = source.
Proof.
  rewrite joinpath_valid by (by vm_compute). apply parent_snoc.
Qed.

(** X4. When the logger has no handler yet and the source is not an
    existing directory, [main] fails while it sets the logger up: the log
    file cannot be opened, the exception leaves [main], the exit status is
    1, nothing is logged and the file system is untouched.  The source
    check of [organize_folder] is not reached. *)
Theorem X4_first_run_invalid_source :
  ∀ (source : Path) (w : World),
    logging.handlers (logger w) = [] →
    os.is_dir (fs w) source = false →
    (∃ exc, (main source w).1 = Raise exc)
    ∧ (run source w).1 = 1%Z
    ∧ fs (run source w).2 = fs w
    ∧ emitted (run source w).2 = emitted w
    ∧ log_file (run source w).2 = log_file w.
Proof.
  intros source w Hh Hdir.
  pose proof (main_cases source w) as H.
  assert (∃ exc w1, setup_logger (pathlib.joinpath source LOG_FILENAME) w
                    = (Raise exc, w1)
                    ∧ fs w1 = fs w ∧ emitted w1 = emitted w
                    ∧ log_file w1 = log_file w) as (exc & w1 & Hs & ? & ? & ?).
  { unfold setup_logger. cbn [logger set_logger logging.handlers fs].
    rewrite Hh. unfold os.open_append. rewrite log_path_parent, Hdir.
    cbn [negb]. by eexists _, _. }
  rewrite Hs in H. unfold run. rewrite H. cbn [fst snd exit_status].
  split; [by eexists|done].
Qed.

Lemma X4_first_run_invalid_source_witness :
  logging.handlers (logger C7_world) = []
  ∧ os.is_dir (fs C7_world) ["gone"] = false
  ∧ (run ["gone"] C7_world).1 = 1%Z
  ∧ emitted (run ["gone"] C7_world).2 = emitted C7_world.
Proof.
  assert (logging.handlers (logger C7_world) = []) as H1 by reflexivity.
  assert (os.is_dir (fs C7_world) ["gone"] = false) as H2 by (by vm_compute).
  destruct (X4_first_run_invalid_source ["gone"] C7_world H1 H2)
    as (_ & Hstatus & _ & Hem & _).
  split; [exact H1|]. split; [exact H2|]. split; [exact Hstatus|exact Hem].
Defined.

(** ** The log file against the logging calls *)

Lemma log_sync_refl w : log_sync w w.
Proof. split; [done|]. exists []. by rewrite !app_nil_r. Qed.

Lemma log_sync_trans w1 w2 w3 :
  log_sync w1 w2 → log_sync w2 w3 → log_sync w1 w3.
Proof.
  intros [Hl1 (n1 & He1 & Hf1)] [Hl2 (n2 & He2 & Hf2)].
  split; [congruence|]. exists (n1 ++ n2).
  rewrite He2, He1, Hf2, Hf1, Hl1, filter_app, !app_assoc. done.
Qed.

Lemma log_sync_set_fs w fs' : log_sync w (set_fs w fs').
Proof. split; [done|]. exists []. by rewrite !app_nil_r. Qed.

Lemma log_sync_logged lvl msg w : log_sync w (logged lvl msg w).
Proof.
  split; [done|]. exists [logging.mkRecord lvl msg]. split; [done|].
  unfold logged, logger_log. cbn [snd log_file].
  rewrite filter_cons, filter_nil. cbn [logging.levelno].
  destruct (logging.writes (logger w) lvl).
  - by rewrite decide_True.
  - rewrite decide_False by done. by rewrite app_nil_r.
Qed.

Create HintDb sync_db.
#[export] Hint Resolve log_sync_refl log_sync_set_fs log_sync_logged : sync_db.

Lemma safe_move_log_sync src dest_dir w :
  log_sync w (safe_move src dest_dir w).2.
Proof.
  pose proof (safe_move_cases src dest_dir w) as H.
  destruct (os.mkdir_parents dest_dir (fs w)) as [fs1|exc].
  - cbv zeta in H. destruct (shutil.move src _ fs1); rewrite H; cbn [snd];
      (eapply log_sync_trans; [apply log_sync_set_fs|]); auto with sync_db.
  - rewrite H. cbn [snd]. auto with sync_db.
Qed.

Lemma process_entry_log_sync source mapping entry w :
  log_sync w (process_entry source mapping entry w).2.
Proof.
  rewrite process_entry_cases. cbn [snd].
  destruct (entry_is_file entry) as [[|]|exc];
    auto using safe_move_log_sync with sync_db.
Qed.

Lemma for_each_log_sync source mapping entries w :
  log_sync w (for_each entries (process_entry source mapping) w).2.
Proof.
  revert w. induction entries as [|entry rest IH]; intros w.
  { apply log_sync_refl. }
  rewrite for_each_cons. eapply log_sync_trans; [|apply IH].
  apply process_entry_log_sync.
Qed.

Lemma organize_folder_log_sync source mapping w :
  log_sync w (organize_folder source mapping w).2.
Proof.
  destruct (organize_folder_cases source mapping w)
    as [(entries & _ & ->)|[(exc & ->)| ->]]; cbn [snd];
    auto using for_each_log_sync with sync_db.
Qed.

Lemma writes_after_setup log_path w w1 lvl :
  setup_logger log_path w = (Ok tt, w1) →
  logging.writes (logger w1) lvl = true ↔ (logging.INFO ≤ lvl)%Z.
Proof.
  intros H. split; [|by apply (setup_logger_writes _ _ _ _ H)].
  pose proof (setup_logger_cases log_path w) as (_ & _ & Hlevel & _).
  rewrite H in Hlevel. cbn [snd] in Hlevel.
  unfold logging.writes, logging.isEnabledFor, logging.getEffectiveLevel.
  rewrite Hlevel. rewrite decide_False by done.
  intros [Hle _]%andb_true_iff. by apply bool_decide_eq_true in Hle.
Qed.



(** ** Extensions and categories *)

Lemma rfind_none c s : Str.contains c s = false → Str.rfind c s = (-1)%Z.
Proof.
  induction s as [|a s IH]; [done|]. simpl.
  intros [Ha Hs]%orb_false_elim. apply bool_decide_eq_false in Ha.
  rewrite IH by done. simpl. by rewrite decide_False.
Qed.

Lemma rfind_app_last c s t :
  Str.contains c t = false →
  Str.rfind c (s +:+ String c t) = Z.of_nat (String.length s).
Proof.
  intros Ht. induction s as [|a s IH].
  - rewrite app_empty_l. simpl. rewrite rfind_none by done. simpl.
    by rewrite decide_True.
  - rewrite app_cons. simpl. rewrite IH.
    destruct (Z.leb_spec 0 (Z.of_nat (String.length s))); lia.
Qed.

Lemma drop_app_length s t : Str.drop (String.length s) (s +:+ t) = t.
Proof. induction s as [|a s IH]; [by destruct t|]. by rewrite app_cons. Qed.

Lemma take_app_length s t : Str.take (String.length s) (s +:+ t) = s.
Proof.
  induction s as [|a s IH]; [by destruct t|].
  rewrite app_cons. simpl. by rewrite IH.
Qed.

(** Suffix and stem of a name that ends in a dot followed by a non-empty
    text without dots. *)
Lemma suffix_of_name_app s t :
  s ≠ "" → t ≠ "" → Str.contains "." t = false →
  pathlib.suffix_of_name (s +:+ String "." t) = String "." t
  ∧ pathlib.stem_of_name (s +:+ String "." t) = s.
Proof.
  intros Hs Ht Hdot.
  unfold pathlib.suffix_of_name, pathlib.stem_of_name, Str.len,
    Str.slice_from, Str.slice_to.
  rewrite rfind_app_last by done. rewrite length_app_str. simpl.
  rewrite Nat2Z.id, drop_app_length, take_app_length.
  assert (0 < String.length s) by (destruct s; [done|simpl; lia]).
  assert (0 < String.length t) by (destruct t; [done|simpl; lia]).
  destruct (Z.ltb_spec 0 (Z.of_nat (String.length s))); [|lia].
  destruct (Z.ltb_spec (Z.of_nat (String.length s))
              (Z.of_nat (String.length s + S (String.length t)) - 1)); [|lia].
  done.
Qed.

Lemma lower_no_dot_lstrip t :
  Str.contains "." t = false →
  Str.lstrip "." (Str.lower (String "." t)) = Str.lower t.
Proof.
  intros Ht. simpl. apply lstrip_no_dot.
  by rewrite contains_dot_lower.
Qed.

Lemma normalize_extension_stem_ext stem ext :
  stem ≠ "" → Str.contains "/" stem = false →
  ext ≠ "" → Str.contains "." ext = false → Str.contains "/" ext = false →
  normalize_extension (stem +:+ "." +:+ ext) = Str.lower ext.
Proof.
  intros Hs Hss He Hed Hes.
  unfold normalize_extension, pathlib.suffix, pathlib.of_str.
  rewrite parse_parts_valid.
  - unfold pathlib.name. simpl.
    change ("." +:+ ext) with (String "." ext).
    rewrite (proj1 (suffix_of_name_app stem ext Hs He Hed)).
    by apply lower_no_dot_lstrip.
  - split; [by destruct stem|]. split.
    + destruct stem as [|a [|b stem]]; [done| |done].
      rewrite app_cons. intros [= _ H].
    + rewrite !contains_app, Hss, Hes. done.
Qed.



(** X7. The extension [normalize_extension] returns is in lower case and
    holds no path separator, so it can be compared with the lower-case
    entries of a category table as it is. *)
Theorem X7_normalize_extension_lowercase :
  ∀ name : string,
    Str.lower (normalize_extension name) = normalize_extension name
    ∧ Str.contains "/" (normalize_extension name) = false.
Proof.
  intros name. split.
  - destruct (normalize_extension_cases name) as [[-> _]|(_ & -> & _)];
      [done|apply lower_idemp].
  - unfold normalize_extension, pathlib.suffix, pathlib.of_str.
    set (base := pathlib.name (pathlib.parse_parts name)).
    assert (Str.contains "/" base = false) as Hbase.
    { unfold base, pathlib.name, pathlib.parse_parts.
      destruct (last _) as [x|] eqn:Hlast; [|done]. simpl.
      apply last_Some_elem_of, list_elem_of_filter in Hlast as [_ Hx].
      clear -Hx. revert x Hx. induction name as [|a s IH]; intros x Hx.
      - apply list_elem_of_singleton in Hx as ->. done.
      - simpl in Hx. destruct (decide (a = "/"%char)) as [->|Ha].
        + apply elem_of_cons in Hx as [->|Hx]; [done|by apply IH].
        + pose proof (split_sep_nonempty s).
          destruct (pathlib.split_sep s) as [|h t]; [done|].
          apply elem_of_cons in Hx as [->|Hx].
          * simpl. rewrite bool_decide_eq_false_2 by done.
            apply IH. by left.
          * apply IH. by right. }
    assert (∀ n s, Str.contains "/" s = false →
                   Str.contains "/" (Str.drop n s) = false) as Hdrop.
    { induction n as [|n IH]; intros [|a s]; try done. simpl.
      intros [_ ?]%orb_false_elim. by apply IH. }
    assert (∀ s, Str.contains "/" s = false →
                 Str.contains "/" (Str.lower s) = false) as Hlower.
    { induction s as [|a s IH]; [done|]. simpl.
      intros [Ha ?]%orb_false_elim. apply bool_decide_eq_false in Ha.
      rewrite IH by done. rewrite bool_decide_eq_false_2; [done|].
      by rewrite lower_char_slash. }
    assert (∀ s, Str.contains "/" s = false →
                 Str.contains "/" (Str.lstrip "." s) = false) as Hstrip.
    { induction s as [|a s IH]; [done|]. intros Hs. simpl.
      destruct (decide (a = "."%char)); [|done].
      simpl in Hs. apply orb_false_elim in Hs as [_ ?]. by apply IH. }
    apply Hstrip, Hlower. unfold pathlib.suffix_of_name, Str.slice_from.
    destruct (_ && _); [by apply Hdrop|done].
Qed.

Lemma get_category_loop_range ext (mapping : CategoryMap) :
  get_category_loop ext mapping = "Others"
  ∨ get_category_loop ext mapping ∈ mapping.*1.
Proof.
  induction mapping as [|[c exts] rest IH]; [by left|]. simpl.
  destruct (bool_decide (ext ∈ exts)); [right; by left|].
  destruct IH as [|]; [by left|right; by right].
Qed.

Lemma get_category_in_table ext (mapping : CategoryMap) :
  get_category ext mapping ∈ "Others" :: mapping.*1.
Proof.
  unfold get_category. destruct (decide (ext = "")); [by left|].
  destruct (get_category_loop_range ext mapping) as [->|]; [by left|by right].
Qed.

(** X8. The category [get_category] returns is always a key of the map or
    ["Others"]; a key is returned only for an extension its list holds. *)
Theorem X8_get_category_range :
  ∀ (ext : string) (mapping : CategoryMap),
    get_category ext mapping = "Others"
    ∨ ∃ exts, (get_category ext mapping, exts) ∈ mapping ∧ ext ∈ exts.
Proof.
  intros ext mapping. unfold get_category.
  destruct (decide (ext = "")); [by left|].
  destruct (get_category_loop_cases ext mapping)
    as [[-> _]|(pre & c & exts & post & -> & _ & Hin & ->)]; [by left|].
  right. exists exts. split; [|done].
  apply elem_of_app. right. by left.
Qed.

(** The configured table is well formed: every extension is non-empty, in
    lower case, without dot or separator, and resolves to the category that
    lists it. *)
Lemma CATEGORY_MAP_well_formed :
  Forall (λ item : string * list string,
            Forall (λ ext, ext ≠ "" ∧ Str.lower ext = ext
                           ∧ Str.contains "." ext = false
                           ∧ Str.contains "/" ext = false
                           ∧ get_category ext CATEGORY_MAP = item.1) item.2)
    CATEGORY_MAP.
Proof. apply (bool_decide_unpack _). by vm_compute. Qed.

(** X9. With the configured table, a file whose name ends in a configured
    extension, in any letter case, resolves to the category that lists the
    extension: no extension of the table is shadowed by an earlier
    category. *)
Theorem X9_configured_extensions_resolve :
  ∀ (category : string) (exts : list string) (ext stem name : string),
    (category, exts) ∈ CATEGORY_MAP → ext ∈ exts →
    stem ≠ "" → Str.contains "/" stem = false →
    Str.lower name = Str.lower (stem +:+ "." +:+ ext) →
    get_category (normalize_extension name) CATEGORY_MAP = category.
Proof.
  intros category exts ext stem name Hitem Hext Hs Hss Hname.
  pose proof CATEGORY_MAP_well_formed as Hwf.
  rewrite Forall_forall in Hwf. specialize (Hwf _ Hitem). simpl in Hwf.
  rewrite Forall_forall in Hwf.
  destruct (Hwf _ Hext) as (Hne & Hlow & Hdot & Hslash & Hcat).
  rewrite <-(normalize_extension_lower name), Hname,
    normalize_extension_lower.
  rewrite normalize_extension_stem_ext by done. by rewrite Hlow.
Qed.

Lemma X9_configured_extensions_resolve_witness :
  ("Documents", ["pdf"; "doc"; "docx"; "txt"; "rtf"; "odt"; "xls"; "xlsx";
                 "ppt"; "pptx"; "md"; "csv"]) ∈ CATEGORY_MAP
  ∧ get_category (normalize_extension "Annual.Report.PDF") CATEGORY_MAP
    = "Documents".
Proof.
  assert (("Documents", ["pdf"; "doc"; "docx"; "txt"; "rtf"; "odt"; "xls";
                         "xlsx"; "ppt"; "pptx"; "md"; "csv"]) ∈ CATEGORY_MAP)
    as Hitem by (unfold CATEGORY_MAP; right; left).
  split; [exact Hitem|].
  apply (X9_configured_extensions_resolve _ _ "pdf" "annual.report" _ Hitem).
  - left.
  - done.
  - reflexivity.
  - reflexivity.
Defined.

(** ** The shape of a safe target *)

Lemma pretty_N_char_no_dot x : pretty_N_char x ≠ "."%char.
Proof. unfold pretty_N_char. by repeat case_match. Qed.

Lemma pretty_N_go_no_dot x s :
  Str.contains "." s = false → Str.contains "." (pretty_N_go x s) = false.
Proof.
  revert s. induction (N.lt_wf_0 x) as [x _ IH]; intros s Hs.
  destruct (decide (x = 0)%N) as [->|Hx]; [by rewrite pretty_N_go_0|].
  rewrite pretty_N_go_step by lia. apply IH.
  - apply N.div_lt; lia.
  - simpl. rewrite Hs.
    by rewrite bool_decide_eq_false_2 by apply pretty_N_char_no_dot.
Qed.

Lemma counter_tag_no_dot n : Str.contains "." (counter_tag n) = false.
Proof.
  unfold counter_tag. rewrite !contains_app.
  assert (Str.contains "." (pretty n) = false) as ->; [|done].
  unfold pretty, pretty_nat, pretty, pretty_N.
  case_decide; [done|]. by apply pretty_N_go_no_dot.
Qed.

Lemma candidate_name_tag name suffix (n : nat) :
  name +:+ " (" +:+ pretty n +:+ ")" +:+ suffix
  = name +:+ counter_tag n +:+ suffix.
Proof. unfold counter_tag. by rewrite !app_assoc_str. Qed.

Lemma contains_take c n s :
  Str.contains c s = false → Str.contains c (Str.take n s) = false.
Proof.
  revert s. induction n as [|n IH]; intros [|a s]; try done. simpl.
  intros [-> ?]%orb_false_elim. by apply IH.
Qed.

Lemma contains_drop c n s :
  Str.contains c s = false → Str.contains c (Str.drop n s) = false.
Proof.
  revert s. induction n as [|n IH]; intros [|a s]; try done. simpl.
  intros [_ ?]%orb_false_elim. by apply IH.
Qed.

Lemma length_drop n s :
  String.length (Str.drop n s) = String.length s - n.
Proof. revert s. induction n as [|n IH]; intros [|a s]; simpl; auto with lia. Qed.

Lemma stem_suffix_no_slash x :
  Str.contains "/" x = false →
  Str.contains "/" (pathlib.stem_of_name x) = false
  ∧ Str.contains "/" (pathlib.suffix_of_name x) = false.
Proof.
  intros Hx. unfold pathlib.stem_of_name, pathlib.suffix_of_name,
    Str.slice_to, Str.slice_from.
  destruct (_ && _); auto using contains_take, contains_drop.
Qed.

(** A candidate built from an ordinary file name is an ordinary name in
    the target directory. *)
Lemma candidate_valid (target_dir : Path) x (n : nat) :
  Str.contains "/" x = false →
  let new_name := pathlib.stem_of_name x +:+ " (" +:+ pretty n +:+ ")"
                  +:+ pathlib.suffix_of_name x in
  valid_name new_name
  ∧ candidate target_dir (pathlib.stem_of_name x) (pathlib.suffix_of_name x) n
    = target_dir ++ [new_name].
Proof.
  intros Hx new_name.
  destruct (stem_suffix_no_slash x Hx) as [Hstem Hsuffix].
  assert (valid_name new_name) as Hvalid.
  { unfold new_name. rewrite candidate_name_tag.
    destruct (keep_around (pathlib.stem_of_name x) n (pathlib.suffix_of_name x))
      as [Hne Hdot].
    split; [done|]. split; [done|].
    by rewrite !contains_app, Hstem, Hsuffix, counter_tag_no_slash. }
  split; [done|]. unfold candidate. by apply joinpath_valid.
Qed.

(** How the suffix of a candidate name relates to the suffix of the name
    it was built from, by the position of the last dot of that name. *)
Lemma suffix_of_candidate x (n : nat) :
  Str.rfind "." x ≠ (Str.len x - 1)%Z →
  pathlib.suffix_of_name
    (pathlib.stem_of_name x +:+ " (" +:+ pretty n +:+ ")"
     +:+ pathlib.suffix_of_name x)
  = pathlib.suffix_of_name x.
Proof.
  intros Hend. rewrite candidate_name_tag.
  unfold pathlib.stem_of_name at 1. unfold pathlib.suffix_of_name at 2 3.
  unfold Str.len, Str.slice_to, Str.slice_from in *.
  destruct (rfind_spec "." x) as [[Hr Hc]|(i & Hr & Hi & Hd & Hc)];
    rewrite Hr in Hend |- *.
  - simpl. rewrite app_empty_r. unfold pathlib.suffix_of_name.
    rewrite rfind_none; [done|].
    by rewrite contains_app, Hc, counter_tag_no_dot.
  - rewrite Nat2Z.id.
    destruct (Z.ltb_spec 0 (Z.of_nat i));
      destruct (Z.ltb_spec (Z.of_nat i) (Z.of_nat (String.length x) - 1));
      cbn [andb]; try lia.
    + rewrite Hd.
      assert (Str.drop (S i) x ≠ "") as Hrest.
      { intros Hrest. apply (f_equal String.length) in Hrest.
        rewrite length_drop in Hrest. simpl in Hrest. lia. }
      rewrite <-app_assoc_str.
      destruct (suffix_of_name_app (Str.take i x +:+ counter_tag n)
                  (Str.drop (S i) x)) as [Hsuffix _]; [|done|done|done].
      by destruct (Str.take i x).
    + assert (i = 0) as -> by lia.
      destruct x as [|a x]; [done|]. simpl in Hd, Hc. injection Hd as ->.
      rewrite app_empty_r, app_cons.
      unfold pathlib.suffix_of_name. cbn [Str.rfind].
      rewrite rfind_none by (by rewrite contains_app, Hc, counter_tag_no_dot).
      done.
Qed.

Lemma make_safe_target_child (fs : FS) (target_dir : Path) filename :
  valid_name filename →
  pathlib.parent (make_safe_target fs target_dir filename) = target_dir
  ∧ valid_name (pathlib.name (make_safe_target fs target_dir filename)).
Proof.
  intros Hvalid.
  assert (Str.contains "/" filename = false) as Hslash by apply Hvalid.
  destruct (make_safe_target_cases fs target_dir filename)
    as [[_ Heq]|(_ & n & _ & Heq & _ & _)].
  - rewrite joinpath_valid in Heq by done. rewrite Heq.
    by rewrite parent_snoc, name_snoc.
  - unfold pathlib.stem, pathlib.suffix in Heq.
    rewrite joinpath_valid, name_snoc in Heq by done.
    destruct (candidate_valid target_dir filename n Hslash) as [Hnew Hcand].
    rewrite Hcand in Heq. rewrite Heq.
    by rewrite parent_snoc, name_snoc.
Qed.

(** X10. For an ordinary file name, the path [make_safe_target] returns is
    a direct child of the target directory with an ordinary name.  Unless
    the file name ends in a dot, the returned name has the suffix of the
    file name, hence the same normalised extension: a file renamed to avoid
    a collision is still classified as before.  A name that ends in a dot
    is the exception: its candidates gain a suffix. *)
Theorem X10_safe_target_shape :
  (∀ (fs : FS) (target_dir : Path) (filename : string),
     valid_name filename →
     let t := make_safe_target fs target_dir filename in
     pathlib.parent t = target_dir
     ∧ valid_name (pathlib.name t)
     ∧ (Str.rfind "." filename ≠ (Str.len filename - 1)%Z →
        pathlib.suffix t = pathlib.suffix_of_name filename
        ∧ normalize_extension (pathlib.name t)
          = normalize_extension filename))
  ∧ (let fs : FS := list_to_map [(["d"], Dir true); (["d"; "notes."], File "n")] in
     normalize_extension "notes." = ""
     ∧ make_safe_target fs ["d"] "notes." = ["d"; "notes. (1)"]
     ∧ normalize_extension "notes. (1)" = " (1)").
Proof.
  split; [|by vm_compute].
  intros fs target_dir filename Hvalid t.
  assert (Str.contains "/" filename = false) as Hslash by apply Hvalid.
  assert (∀ x, valid_name x →
            normalize_extension x
            = Str.lstrip "." (Str.lower (pathlib.suffix_of_name x))) as Hnorm.
  { intros x Hx. unfold normalize_extension, pathlib.suffix, pathlib.of_str.
    rewrite parse_parts_valid by done. done. }
  destruct (make_safe_target_cases fs target_dir filename)
    as [[_ Heq]|(_ & n & _ & Heq & _ & _)]; fold t in Heq.
  - rewrite joinpath_valid in Heq by done. rewrite Heq.
    rewrite parent_snoc. unfold pathlib.suffix. rewrite name_snoc.
    split; [done|]. split; [done|]. by intros _.
  - unfold pathlib.stem, pathlib.suffix in Heq.
    rewrite joinpath_valid, name_snoc in Heq by done.
    destruct (candidate_valid target_dir filename n Hslash) as [Hnew Hcand].
    rewrite Hcand in Heq. rewrite Heq.
    rewrite parent_snoc. unfold pathlib.suffix. rewrite name_snoc.
    split; [done|]. split; [done|].
    intros Hend. rewrite (Hnorm _ Hnew), (Hnorm _ Hvalid).
    by rewrite suffix_of_candidate.
Qed.

Lemma X10_safe_target_shape_witness :
  let fs : FS :=
    list_to_map [(["d"], Dir true); (["d"; "photo.JPG"], File "p")] in
  let t := make_safe_target fs ["d"] "photo.JPG" in
  valid_name "photo.JPG"
  ∧ pathlib.parent t = ["d"]
  ∧ Str.rfind "." "photo.JPG" ≠ (Str.len "photo.JPG" - 1)%Z
  ∧ normalize_extension (pathlib.name t) = normalize_extension "photo.JPG".
Proof.
  intros fs t.
  assert (valid_name "photo.JPG") as Hvalid by (by vm_compute).
  assert (Str.rfind "." "photo.JPG" ≠ (Str.len "photo.JPG" - 1)%Z) as Hend
    by (by vm_compute).
  destruct (proj1 X10_safe_target_shape fs ["d"] "photo.JPG" Hvalid)
    as (Hparent & _ & Hext).
  split; [exact Hvalid|]. split; [exact Hparent|]. split; [exact Hend|].
  exact (proj2 (Hext Hend)).
Defined.

(** ** Successive safe targets *)

Lemma path_exists_insert (fs : FS) (t p : Path) (v : node) :
  os.path_exists (<[t := v]> fs) p
  = bool_decide (p = t) || os.path_exists fs p.
Proof.
  unfold os.path_exists, os.lookup_node. destruct p as [|x p].
  { by rewrite orb_true_r. }
  destruct (decide (x :: p = t)) as [<-|Hne].
  - by rewrite lookup_insert_eq, bool_decide_eq_true_2.
  - rewrite lookup_insert_ne by done. by rewrite bool_decide_eq_false_2.
Qed.

(** X11. After a file has been placed at the path [make_safe_target]
    returned, the next call for the same name returns a different path: a
    candidate with a counter of at least 1, and, when the first path was
    itself the candidate of round [n], the least free candidate of a later
    round. *)
Theorem X11_successive_safe_targets :
  ∀ (fs : FS) (target_dir : Path) (filename content : string),
    let target := pathlib.joinpath target_dir filename in
    let cand :=
      candidate target_dir (pathlib.stem target) (pathlib.suffix target) in
    let t := make_safe_target fs target_dir filename in
    let t' := make_safe_target (<[t := File content]> fs) target_dir filename in
    t' ≠ t
    ∧ ∃ n' : nat,
        1 ≤ n' ∧ t' = cand n'
        ∧ (os.path_exists fs target = true →
           ∃ n : nat, t = cand n ∧ n < n'
             ∧ ∀ m, n < m < n' → os.path_exists fs (cand m) = true).
Proof.
  intros fs target_dir filename content target cand t t'.
  set (fs' := <[t := File content]> fs) in *.
  assert (os.path_exists fs' t = true) as Ht.
  { unfold fs'. by rewrite path_exists_insert, bool_decide_eq_true_2. }
  assert (t' ≠ t) as Hne.
  { intros Heq. pose proof (make_safe_target_fresh fs' target_dir filename) as Hf.
    fold t' in Hf. congruence. }
  split; [done|].
  pose proof (make_safe_target_cases fs target_dir filename) as Hcases.
  cbv zeta in Hcases. fold target cand t in Hcases.
  pose proof (make_safe_target_cases fs' target_dir filename) as Hcases'.
  cbv zeta in Hcases'. fold target cand t' in Hcases'.
  assert (os.path_exists fs' target = true) as Htarget'.
  { destruct Hcases as [[_ Heq]|[Hex _]].
    - by rewrite <-Heq.
    - unfold fs'. rewrite path_exists_insert. by rewrite Hex, orb_true_r. }
  destruct Hcases' as [[Hex _]|(_ & n' & Hn' & Heq' & Hfree' & Hbelow')];
    [congruence|].
  exists n'. split; [lia|]. split; [done|].
  intros Hex.
  destruct Hcases as [[Hno _]|(_ & n & Hn & Heq & Hfree & Hbelow)];
    [congruence|].
  exists n. split; [done|].
  assert (n < n') as Hlt.
  { destruct (decide (n' < n)) as [Hlt|Hge].
    - specialize (Hbelow n'). unfold fs' in Hfree'.
      rewrite path_exists_insert in Hfree'.
      apply orb_false_elim in Hfree' as [_ Hfree'].
      rewrite Hbelow in Hfree' by lia. done.
    - destruct (decide (n = n')) as [->|]; [|lia].
      destruct Hne. congruence. }
  split; [done|]. intros m Hm.
  specialize (Hbelow' m). unfold fs' in Hbelow'.
  rewrite path_exists_insert in Hbelow'.
  rewrite bool_decide_eq_false_2 in Hbelow'; [apply Hbelow'; lia|].
  rewrite Heq. intros Hcm. apply candidate_inj in Hcm. lia.
Qed.

Lemma X11_successive_safe_targets_witness :
  let fs : FS :=
    list_to_map [(["d"], Dir true); (["d"; "report.pdf"], File "r0")] in
  let t := make_safe_target fs ["d"] "report.pdf" in
  let t' := make_safe_target (<[t := File "r1"]> fs) ["d"] "report.pdf" in
  os.path_exists fs ["d"; "report.pdf"] = true
  ∧ t = ["d"; "report (1).pdf"]
  ∧ t' ≠ t.
Proof.
  intros fs t t'.
  split; [by vm_compute|]. split; [by vm_compute|].
  exact (proj1 (X11_successive_safe_targets fs ["d"] "report.pdf" "r1")).
Defined.

(** ** [safe_move] on a regular file *)

Lemma safe_move_file_cases (src dest_dir : Path) (w : World) (c : string) :
  fs w !! src = Some (File c) →
  let out := safe_move src dest_dir w in
  (∃ fs1 target,
      os.mkdir_parents dest_dir (fs w) = Ok fs1
      ∧ target = make_safe_target fs1 dest_dir (pathlib.name src)
      ∧ out.1 = Ok (Some target)
      ∧ fs1 !! target = None ∧ target ≠ src
      ∧ fs out.2 = <[target := File c]> (delete src fs1))
  ∨ (out.1 = Ok None
     ∧ ∀ (p : Path) (v : node), fs w !! p = Some v → fs out.2 !! p = Some v).
Proof.
  intros Hsrc out. subst out.
  pose proof (safe_move_cases src dest_dir w) as H.
  destruct (os.mkdir_parents dest_dir (fs w)) as [fs1|exc] eqn:Hmk.
  - cbv zeta in H.
    destruct (shutil.move src _ fs1) as [fs2|exc] eqn:Hmv; rewrite H.
    + left. exists fs1, (make_safe_target fs1 dest_dir (pathlib.name src)).
      pose proof (make_safe_target_fresh fs1 dest_dir (pathlib.name src))
        as Hfresh.
      pose proof (mkdir_parents_preserves _ _ _ _ _ Hmk Hsrc) as Hsrc1.
      destruct (path_exists_false_lookup _ _ Hfresh) as [_ Hnone].
      apply move_fresh in Hmv; [|done].
      destruct (rename_fresh _ _ _ _ Hfresh Hmv)
        as [(c' & Hc' & ->)|(b & Hb & _)]; [|congruence].
      assert (c' = c) as -> by congruence.
      repeat split; try done. congruence.
    + right. split; [done|]. intros p v Hp. cbn.
      by eapply mkdir_parents_preserves.
  - rewrite H. right. by split.
Qed.



Lemma mkdir_parents_is_dir (path : Path) (fs fs1 : FS) :
  os.mkdir_parents path fs = Ok fs1 → os.is_dir fs1 path = true.
Proof.
  intros Hmk. unfold os.is_dir, os.lookup_node.
  destruct path as [|x d]; [done|].
  destruct (mkdir_from_dirs [] (x :: d) fs fs1 (x :: d))
    as [b Hb]; [done|done|done|]. simpl in Hb. by rewrite Hb.
Qed.

(** A regular file with an ordinary name is moved as soon as the
    destination directory has been ensured. *)
Lemma safe_move_file_moves (src dest_dir : Path) (w : World) (c : string)
  (fs1 : FS) :
  fs w !! src = Some (File c) →
  valid_name (pathlib.name src) →
  os.mkdir_parents dest_dir (fs w) = Ok fs1 →
  let target := make_safe_target fs1 dest_dir (pathlib.name src) in
  pathlib.parent target = dest_dir
  ∧ fs1 !! target = None
  ∧ safe_move src dest_dir w
    = (Ok (Some target),
       logged logging.INFO (moved_msg src target)
         (set_fs w (<[target := File c]> (delete src fs1)))).
Proof.
  intros Hsrc Hname Hmk target.
  pose proof (safe_move_cases src dest_dir w) as H. rewrite Hmk in H.
  cbv zeta in H. fold target in H.
  pose proof (make_safe_target_fresh fs1 dest_dir (pathlib.name src))
    as Hfresh. fold target in Hfresh.
  destruct (make_safe_target_child fs1 dest_dir _ Hname) as (Hparent & _).
  fold target in Hparent.
  destruct (path_exists_false_lookup _ _ Hfresh) as [Hroot Hnone].
  assert (shutil.move src target fs1
          = Ok (<[target := File c]> (delete src fs1))) as Hmv.
  { pose proof (mkdir_parents_preserves _ _ _ _ _ Hmk Hsrc) as Hsrc1.
    pose proof (mkdir_parents_is_dir _ _ _ Hmk) as Hdir.
    assert (os.lookup_node fs1 target = None) as Hl.
    { unfold os.lookup_node. by destruct target. }
    assert (os.is_dir fs1 target = false) as Hdt.
    { unfold os.is_dir. by rewrite Hl. }
    destruct src as [|x src]; [by destruct Hname|].
    unfold shutil.move. rewrite Hdt.
    unfold os.rename. by rewrite Hsrc1, Hparent, Hdir, Hl. }
  rewrite Hmv in H. by repeat split.
Qed.



(** ** What a scan does to the file system *)

Lemma safe_move_file_keeps_others (src dest_dir : Path) (w : World)
  (c : string) (p : Path) (v : node) :
  fs w !! src = Some (File c) → p ≠ src → fs w !! p = Some v →
  fs (safe_move src dest_dir w).2 !! p = Some v.
Proof.
  intros Hsrc Hp Hv.
  destruct (safe_move_file_cases src dest_dir w c Hsrc)
    as [(fs1 & target & Hmk & _ & _ & Hnone & _ & ->)|[_ Hkeep]]; [|by apply Hkeep].
  pose proof (mkdir_parents_preserves _ _ _ _ _ Hmk Hv) as Hv1.
  rewrite lookup_insert_ne by congruence. by rewrite lookup_delete_ne.
Qed.

(** The entries still to be scanned stay regular files while another
    entry is processed. *)
Lemma process_entry_keeps_files source mapping (entry : DirEntry)
  (rest : list DirEntry) (w : World) :
  entry_path entry ∉ entry_path <$> rest →
  (entry_is_file entry = Ok true →
   ∃ c, fs w !! entry_path entry = Some (File c)) →
  (∀ e, e ∈ rest → entry_is_file e = Ok true →
        ∃ c, fs w !! entry_path e = Some (File c)) →
  ∀ e, e ∈ rest → entry_is_file e = Ok true →
       ∃ c, fs (process_entry source mapping entry w).2 !! entry_path e
            = Some (File c).
Proof.
  intros Hnotin Hentry Hfiles e He Hfile.
  destruct (Hfiles e He Hfile) as [c Hc]. exists c.
  rewrite process_entry_cases. cbn [snd].
  destruct (entry_is_file entry) as [[|]|exc]; [|done|done].
  destruct Hentry as [c0 Hc0]; [done|].
  apply (safe_move_file_keeps_others _ _ _ c0); [done| |done].
  intros Heq. apply Hnotin. rewrite <-Heq. by apply list_elem_of_fmap_2.
Qed.

Lemma for_each_keeps_content source mapping (entries : list DirEntry)
  (w : World) (p : Path) (c : string) :
  NoDup (entry_path <$> entries) →
  (∀ e, e ∈ entries → entry_is_file e = Ok true →
        ∃ c', fs w !! entry_path e = Some (File c')) →
  fs w !! p = Some (File c) →
  let final := (for_each entries (process_entry source mapping) w).2 in
  fs final !! p = Some (File c)
  ∨ ((∃ e, e ∈ entries ∧ entry_is_file e = Ok true ∧ entry_path e = p)
     ∧ ∃ p', fs final !! p' = Some (File c)).
Proof.
  revert w p. induction entries as [|entry rest IH];
    intros w p Hnodup Hfiles Hp; [by left|].
  cbv zeta. rewrite for_each_cons. rewrite fmap_cons in Hnodup.
  apply NoDup_cons in Hnodup as [Hnotin Hnodup].
  set (w' := (process_entry source mapping entry w).2).
  assert (∀ e, e ∈ rest → entry_is_file e = Ok true →
            ∃ c', fs w' !! entry_path e = Some (File c')) as Hfiles'.
  { apply process_entry_keeps_files; [done| |].
    - intros Hfile. apply Hfiles; [by left|done].
    - intros e He. apply Hfiles. by right. }
  assert (∀ p1, fs w' !! p1 = Some (File c) →
            ∃ p', fs (for_each rest (process_entry source mapping) w').2 !! p'
                  = Some (File c)) as Hsome.
  { intros p1 Hp1. destruct (IH w' p1 Hnodup Hfiles' Hp1) as [|[_ ?]];
      [by eexists|done]. }
  assert (fs w' !! p = Some (File c) →
          fs (for_each rest (process_entry source mapping) w').2 !! p
          = Some (File c)
          ∨ ((∃ e, e ∈ entry :: rest ∧ entry_is_file e = Ok true
                   ∧ entry_path e = p)
             ∧ ∃ p', fs (for_each rest (process_entry source mapping) w').2
                       !! p' = Some (File c))) as Hsame.
  { intros Hp'. destruct (IH w' p Hnodup Hfiles' Hp')
      as [|[(e & He & Hfile & Hpath) Hex]]; [by left|right].
    split; [|done]. exists e. split; [by right|done]. }
  unfold w' in *. clear w'. rewrite process_entry_cases in *. cbn [snd] in *.
  destruct (entry_is_file entry) as [[|]|exc] eqn:Hfile;
    [|by apply Hsame|by apply Hsame].
  destruct (Hfiles entry) as [c0 Hc0]; [by left|done|].
  destruct (decide (p = entry_path entry)) as [->|Hne].
  - assert (c0 = c) as -> by congruence. right. split.
    { exists entry. split; [by left|done]. }
    destruct (safe_move_file_cases (entry_path entry)
                (dest_dir_of source mapping entry) w c Hc0)
      as [(fs1 & target & _ & _ & _ & _ & _ & Hfs)|[_ Hkeep]].
    + apply (Hsome target). rewrite Hfs. apply lookup_insert_eq.
    + apply (Hsome (entry_path entry)). by apply Hkeep.
  - apply Hsame. by apply (safe_move_file_keeps_others _ _ _ c0).
Qed.

Lemma scandir_files source w entries :
  scandir source w = (Ok entries, w) →
  ∀ e, e ∈ entries → entry_is_file e = Ok true →
       ∃ c, fs w !! entry_path e = Some (File c).
Proof.
  intros Hscan e He Hfile.
  destruct (scandir_entries source w entries e Hscan He)
    as (n & Hn & _ & _ & Hkind).
  rewrite Hfile in Hkind. destruct n as [c|b]; [by exists c|done].
Qed.

Lemma organize_folder_keeps_content source mapping (w : World)
  (p : Path) (c : string) :
  fs w !! p = Some (File c) →
  fs (organize_folder source mapping w).2 !! p = Some (File c)
  ∨ (p ≠ [] ∧ pathlib.parent p = source
     ∧ ∃ p', fs (organize_folder source mapping w).2 !! p' = Some (File c)).
Proof.
  intros Hp.
  destruct (organize_folder_cases source mapping w)
    as [(entries & Hscan & ->)|[(exc & ->)| ->]]; [|by left|by left].
  destruct (for_each_keeps_content source mapping entries w p c)
    as [|[(e & He & _ & <-) Hex]]; [| |done|by left|right].
  - by eapply scandir_NoDup.
  - by eapply scandir_files.
  - destruct (scandir_entries source w entries e Hscan He)
      as (n & _ & Hne & Hpar & _). done.
Qed.



Lemma organize_folder_new_dirs_in_table source mapping (w : World)
  (q : Path) (b : bool) :
  fs (organize_folder source mapping w).2 !! q = Some (Dir b) →
  fs w !! q = Some (Dir b)
  ∨ ∃ category,
      category ∈ "Others" :: mapping.*1
      ∧ q `prefix_of` pathlib.joinpath source category.
Proof.
  destruct (organize_folder_cases source mapping w)
    as [(entries & Hscan & ->)|[(exc & ->)| ->]]; [|by left|by left].
  intros Hq. destruct (for_each_new_dirs source mapping entries w q b)
    as [|(e & _ & Hpre)]; [| | |done|by left|right].
  - by eapply scandir_NoDup.
  - intros e He.
    by destruct (scandir_entries source w entries e Hscan He)
      as (n & _ & ? & ? & _).
  - by eapply scandir_files.
  - eexists. split; [apply get_category_in_table|exact Hpre].
Qed.

(** X15. The only directories a scan creates are the folders of the
    categories of the map and of ["Others"] directly under the source
    (and, if missing, their ancestors): a directory found after
    [organize_folder] was there before or lies on the path to such a
    folder. *)
Theorem X15_scan_creates_only_category_folders :
  ∀ (source : Path) (mapping : CategoryMap) (w : World) (q : Path) (b : bool),
    fs (organize_folder source mapping w).2 !! q = Some (Dir b) →
    fs w !! q = Some (Dir b)
    ∨ ∃ category,
        category ∈ "Others" :: mapping.*1
        ∧ q `prefix_of` pathlib.joinpath source category.
Proof. apply organize_folder_new_dirs_in_table. Qed.

Lemma X15_scan_creates_only_category_folders_witness :
  let out := organize_folder ["src"] CATEGORY_MAP scenario_world in
  fs out.2 !! ["src"; "Images"] = Some (Dir true)
  ∧ (fs scenario_world !! ["src"; "Images"] = Some (Dir true)
     ∨ ∃ category,
         category ∈ "Others" :: CATEGORY_MAP.*1
         ∧ ["src"; "Images"] `prefix_of` pathlib.joinpath ["src"] category).
Proof.
  intros out.
  assert (fs out.2 !! ["src"; "Images"] = Some (Dir true)) as H
    by (by vm_compute).
  split; [exact H|].
  exact (X15_scan_creates_only_category_folders _ _ _ _ _ H).
Defined.

(** ** A regular file reaches the folder of its category *)

Lemma mkdir_parents_ok_iff (path : Path) (fs : FS) :
  (∀ q c, q ≠ [] → q `prefix_of` path → fs !! q ≠ Some (File c)) →
  ∃ fs1, os.mkdir_parents path fs = Ok fs1.
Proof.
  intros Hfree. destruct (os.mkdir_parents path fs) as [fs1|exc] eqn:Hmk;
    [by eexists|].
  destruct (proj1 (mkdir_from_raises [] path fs)) as (q & c & Hq & Hpre & Hc);
    [by eexists|]. simpl in Hc. by destruct (Hfree q c).
Qed.

Lemma dest_dir_of_valid source mapping entry :
  Forall valid_name ("Others" :: mapping.*1) →
  dest_dir_of source mapping entry
  = source ++ [get_category (normalize_extension (entry_name entry)) mapping]
  ∧ valid_name (get_category (normalize_extension (entry_name entry)) mapping).
Proof.
  intros Hcats. rewrite Forall_forall in Hcats.
  pose proof (Hcats _ (get_category_in_table
                         (normalize_extension (entry_name entry)) mapping))
    as Hvalid.
  split; [|done]. unfold dest_dir_of. by apply joinpath_valid.
Qed.



(** ** Every regular file of the source reaches its category folder *)

Lemma process_entry_keeps_other source mapping (entry : DirEntry)
  (w : World) (p : Path) (v : node) :
  (entry_is_file entry = Ok true →
   ∃ c, fs w !! entry_path entry = Some (File c)) →
  p ≠ entry_path entry → fs w !! p = Some v →
  fs (process_entry source mapping entry w).2 !! p = Some v.
Proof.
  intros Hentry Hp Hv. rewrite process_entry_cases. cbn [snd].
  destruct (entry_is_file entry) as [[|]|exc]; [|done|done].
  destruct Hentry as [c0 Hc0]; [done|].
  by apply (safe_move_file_keeps_others _ _ _ c0).
Qed.

Lemma for_each_keeps_other source mapping (entries : list DirEntry)
  (w : World) (p : Path) (v : node) :
  NoDup (entry_path <$> entries) →
  (∀ e, e ∈ entries → entry_is_file e = Ok true →
        ∃ c, fs w !! entry_path e = Some (File c)) →
  (∀ e, e ∈ entries → entry_path e ≠ p) →
  fs w !! p = Some v →
  fs (for_each entries (process_entry source mapping) w).2 !! p = Some v.
Proof.
  revert w. induction entries as [|entry rest IH];
    intros w Hnodup Hfiles Hp Hv; [done|].
  rewrite for_each_cons. rewrite fmap_cons in Hnodup.
  apply NoDup_cons in Hnodup as [Hnotin Hnodup].
  apply IH; [done| | |].
  - apply process_entry_keeps_files; [done| |].
    + intros Hfile. apply Hfiles; [by left|done].
    + intros e He. apply Hfiles. by right.
  - intros e He. apply Hp. by right.
  - apply process_entry_keeps_other; [|symmetry; apply Hp; by left|done].
    intros Hfile. apply Hfiles; [by left|done].
Qed.

Lemma parent_snoc_length (q d : Path) x :
  pathlib.parent q = d ++ [x] → length q = S (S (length d)).
Proof.
  unfold pathlib.parent. intros Hq.
  destruct (decide (q = [])) as [->|Hne]; [by destruct d|].
  rewrite (app_removelast_last "" Hne), Hq, !length_app. simpl. lia.
Qed.

(** A regular file that turns up while an entry is processed is the moved
    file at its target. *)
Lemma process_entry_new_files source mapping (entry : DirEntry) (w : World)
  (q : Path) (c : string) :
  (entry_is_file entry = Ok true →
   ∃ c0, fs w !! entry_path entry = Some (File c0)) →
  valid_name (pathlib.name (entry_path entry)) →
  fs (process_entry source mapping entry w).2 !! q = Some (File c) →
  fs w !! q = Some (File c)
  ∨ pathlib.parent q = dest_dir_of source mapping entry.
Proof.
  intros Hentry Hname. rewrite process_entry_cases. cbn [snd].
  destruct (entry_is_file entry) as [[|]|exc]; [|by left|by left].
  destruct Hentry as [c0 Hc0]; [done|].
  destruct (os.mkdir_parents (dest_dir_of source mapping entry) (fs w))
    as [fs1|exc] eqn:Hmk.
  - destruct (safe_move_file_moves _ _ w c0 fs1 Hc0 Hname Hmk)
      as (Hparent & _ & ->). cbn.
    intros [[<- _]|[_ Hq]]%lookup_insert_Some; [by right|left].
    apply lookup_delete_Some in Hq as [_ Hq].
    by destruct (mkdir_from_lookup _ _ _ _ _ _ Hmk Hq) as [|[[=] _]].
  - pose proof (safe_move_cases (entry_path entry)
                  (dest_dir_of source mapping entry) w) as H.
    rewrite Hmk in H. rewrite H. by left.
Qed.

Lemma for_each_moves_file source mapping (entries : list DirEntry)
  (w : World) (e : DirEntry) (c : string) :
  NoDup (entry_path <$> entries) →
  (∀ e', e' ∈ entries →
         entry_path e' = source ++ [entry_name e']
         ∧ valid_name (entry_name e')) →
  (∀ e', e' ∈ entries → entry_is_file e' = Ok true →
         ∃ c', fs w !! entry_path e' = Some (File c')) →
  Forall valid_name ("Others" :: mapping.*1) →
  e ∈ entries → entry_is_file e = Ok true →
  fs w !! entry_path e = Some (File c) →
  (∀ q c', q ≠ [] → q `prefix_of` dest_dir_of source mapping e →
           fs w !! q ≠ Some (File c')) →
  ∃ target,
    pathlib.parent target = dest_dir_of source mapping e
    ∧ fs (for_each entries (process_entry source mapping) w).2 !! target
      = Some (File c).
Proof.
  intros Hnodup Hshape Hfiles Hcats. revert w Hnodup Hshape Hfiles.
  induction entries as [|entry rest IH];
    intros w Hnodup Hshape Hfiles He Hfile Hc Hfree;
    [by apply not_elem_of_nil in He|].
  rewrite for_each_cons. rewrite fmap_cons in Hnodup.
  apply NoDup_cons in Hnodup as [Hnotin Hnodup].
  assert (∀ e', e' ∈ rest → entry_is_file e' = Ok true →
            ∃ c', fs (process_entry source mapping entry w).2 !! entry_path e'
                  = Some (File c')) as Hfiles'.
  { apply process_entry_keeps_files; [done| |].
    - intros Hf. apply Hfiles; [by left|done].
    - intros e' He'. apply Hfiles. by right. }
  assert (∀ e', e' ∈ entry :: rest →
            valid_name (pathlib.name (entry_path e'))) as Hnames.
  { intros e' He'. destruct (Hshape e' He') as [-> ?]. by rewrite name_snoc. }
  apply elem_of_cons in He as [->|He].
  - (* the file is the entry processed now *)
    rewrite process_entry_cases, Hfile. cbn [snd].
    destruct (mkdir_parents_ok_iff _ _ Hfree) as [fs1 Hmk].
    destruct (safe_move_file_moves _ _ w c fs1 Hc (Hnames _ ltac:(by left)) Hmk)
      as (Hparent & _ & Hmove).
    eexists. split; [exact Hparent|]. rewrite Hmove. cbn [snd].
    apply for_each_keeps_other; [done| | |].
    + intros e' He' Hf'. destruct (Hfiles' e' He' Hf') as [c' Hc'].
      rewrite process_entry_cases, Hfile, Hmove in Hc'. by exists c'.
    + intros e' He' Heq.
      destruct (dest_dir_of_valid source mapping entry Hcats) as [Hdest _].
      rewrite <-Heq, Hdest in Hparent. apply parent_snoc_length in Hparent.
      destruct (Hshape e') as [Hp' _]; [by right|].
      rewrite Hp', length_app in Hparent. simpl in Hparent. lia.
    + cbn. apply lookup_insert_eq.
  - (* the file is processed later *)
    assert (entry_path e ≠ entry_path entry) as Hne.
    { intros Heq. apply Hnotin. rewrite <-Heq. by apply list_elem_of_fmap_2. }
    apply IH; [done| |done|done|done| |].
    + intros e' He'. apply Hshape. by right.
    + apply process_entry_keeps_other; [|done|done].
      intros Hf. apply Hfiles; [by left|done].
    + intros q c' Hq Hpre Hq'.
      destruct (process_entry_new_files source mapping entry w q c')
        as [Hold|Hparent]; [| |done|by destruct (Hfree q c')|].
      * intros Hf. apply Hfiles; [by left|done].
      * apply Hnames. by left.
      * destruct (dest_dir_of_valid source mapping entry Hcats) as [Hdest _].
        destruct (dest_dir_of_valid source mapping e Hcats) as [Hdest' _].
        rewrite Hdest in Hparent. apply parent_snoc_length in Hparent.
        rewrite Hdest' in Hpre. apply prefix_length in Hpre.
        rewrite length_app in Hpre. simpl in Hpre. lia.
Qed.


Lemma parent_name_snoc (q : Path) :
  q ≠ [] → q = pathlib.parent q ++ [pathlib.name q].
Proof.
  destruct q as [|x q _] using rev_ind; [done|]. intros _.
  by rewrite parent_snoc, name_snoc.
Qed.

Lemma scandir_shape source w entries :
  scandir source w = (Ok entries, w) →
  ordinary_children source (fs w) →
  ∀ e, e ∈ entries →
       entry_path e = source ++ [entry_name e] ∧ valid_name (entry_name e).
Proof.
  unfold scandir. destruct (os.lookup_node (fs w) source) as [[c|[|]]|];
    intros [= <-] Hord e He; [].
  apply list_elem_of_fmap in He as ([k n] & -> & Hkn).
  apply list_elem_of_filter in Hkn as [[Hne Hpar] Hkn].
  apply elem_of_map_to_list in Hkn.
  cbn [entry_of entry_path entry_name fst snd] in *. split.
  - pose proof (parent_name_snoc k Hne) as Hk. by rewrite Hpar in Hk.
  - by apply (Hord k n).
Qed.

Lemma scandir_lists source w entries name (n : node) :
  scandir source w = (Ok entries, w) →
  fs w !! (source ++ [name]) = Some n →
  entry_of (source ++ [name], n) ∈ entries.
Proof.
  unfold scandir. destruct (os.lookup_node (fs w) source) as [[c|[|]]|];
    intros [= <-] Hn; [].
  apply list_elem_of_fmap_2, list_elem_of_filter. split.
  - split; cbn; [by destruct source|apply parent_snoc].
  - by apply elem_of_map_to_list.
Qed.


